(** * Digital rain: a shallow embedding of [src/expt/cmatrix.cpp]

    The C++ class [Matrix] owns a character grid, a brightness grid and four
    per-column vectors, and mutates them once per frame in [update()].  The
    embedding keeps that shape: a record with the same fields, explicit state
    passing for the mutation, the counted [for] loops as a fold over the index
    range, and the pseudo-random engine as an abstract interface whose only
    guaranteed property is the range of [std::uniform_int_distribution].
    The one place where C++ leaves the order of two draws open, line 70, is
    a parameter as well.

    C++ [int] values are modelled as [Z].  Every integer the program computes
    from a reachable state is tiny (brightness in 0..10, counters in 0..4,
    rows between -60 and 65546), so no 32-bit wrap-around is ever involved.
    The POSIX branch of every [#ifdef _WIN32] is the one modelled. *)

From Stdlib Require Import ZArith Lia String Ascii.
From stdpp Require Import base tactics option list.

Open Scope Z_scope.

(** ** The random source

    [std::mt19937 rng] together with [std::uniform_int_distribution<int>].
    The standard leaves the algorithm of the distribution to the library, so
    the engine is kept abstract: a state, a way to seed it, and a draw that
    returns a value together with the advanced engine.  The one law is that a
    draw from [(a, b)] with [a <= b] lands in the closed interval. *)

Class RandomSource := {
  engine : Type;
  seed_engine : Z -> engine;
  uniform_int : Z -> Z -> engine -> Z * engine;
  uniform_int_range :
    forall a b g, a <= b -> a <= fst (uniform_int a b g) <= b
}.

(** A concrete engine, used to run the model on examples: a linear
    congruential generator folded into the requested interval. *)

Definition lcg_next (g : Z) : Z := (1103515245 * g + 12345) mod 2147483648.

Definition lcg_uniform (a b g : Z) : Z * Z :=
  let g' := lcg_next g in (a + (g' / 65536) mod (b - a + 1), g').

Lemma lcg_uniform_range a b g : a <= b -> a <= fst (lcg_uniform a b g) <= b.
Proof.
  intros Hab. unfold lcg_uniform. cbn [fst].
  pose proof (Z.mod_pos_bound (lcg_next g / 65536) (b - a + 1)). lia.
Qed.

Definition lcg : RandomSource :=
  {| engine := Z;
     seed_engine := fun s => s mod 2147483648;
     uniform_int := lcg_uniform;
     uniform_int_range := lcg_uniform_range |}.

(** The same generator with its state stored one higher: an engine of
    another make, which draws the same values from different states. *)

Definition lcg_shifted_uniform (a b g : Z) : Z * Z :=
  (fst (lcg_uniform a b (g - 1)), snd (lcg_uniform a b (g - 1)) + 1).

Lemma lcg_shifted_uniform_range a b g :
  a <= b -> a <= fst (lcg_shifted_uniform a b g) <= b.
Proof. intros Hab. apply (lcg_uniform_range a b (g - 1) Hab). Qed.

Definition lcg_shifted : RandomSource :=
  {| engine := Z;
     seed_engine := fun s => s mod 2147483648 + 1;
     uniform_int := lcg_shifted_uniform;
     uniform_int_range := lcg_shifted_uniform_range |}.

(** ** Counted loops

    [for (int i = lo; i < hi; ++i) body] over a state [St]. *)

Definition for_loop {St : Type} (lo hi : Z) (body : Z -> St -> St) (s : St)
  : St :=
  fold_left (fun acc i => body i acc) (seqZ lo (hi - lo)) s.

(** ** Vectors and grids

    [v[i]] and [v[i] = x] on a [std::vector]; an index is a C++ [int].  The
    source only indexes inside the allocated range (every row index is
    guarded, every column index comes from a loop bounded by [width]); what
    C++ leaves undefined outside that range is, in the model, a read of the
    default and a write that changes nothing. *)

Definition vget (v : list Z) (i : Z) : Z := default 0 (v !! Z.to_nat i).

Definition vset (v : list Z) (i x : Z) : list Z := <[Z.to_nat i := x]> v.

Definition grid_get {A : Type} (d : A) (g : list (list A)) (row col : Z) : A :=
  default d (g !! Z.to_nat row ≫= fun r => r !! Z.to_nat col).

Definition grid_set {A : Type} (g : list (list A)) (row col : Z) (x : A)
  : list (list A) :=
  alter (fun r => <[Z.to_nat col := x]> r) (Z.to_nat row) g.

(** ** The symbol string

    [matrix_chars] is a [std::string]: a sequence of bytes.  The source file
    is UTF-8, so each katakana occupies three bytes and the string is 158
    bytes long; the literal below is the same byte sequence. *)

Definition matrix_chars : string :=
  "アイウエオカキクケコサシスセソタチツテトナニヌネノハヒフヘホマミムメモヤユヨラリルレロワヲン0123456789!@#$%^&*()".

Definition matrix_chars_length : Z := Z.of_nat (String.length matrix_chars).

(** [matrix_chars[k]]: the byte at index [k] ([operator[]] at [size()] is the
    terminating zero). *)
Definition matrix_char (k : Z) : ascii :=
  default zero (String.get (Z.to_nat k) matrix_chars).

(** The four distributions set up by [initializeMatrix], as their bounds. *)
Definition char_dist : Z * Z := (0, matrix_chars_length - 1).
Definition speed_dist : Z * Z := (1, 4).
Definition length_dist : Z * Z := (7, 10).
Definition spawn_dist : Z * Z := (0, 50).

Definition space : ascii := " "%char.

(** [struct winsize] after the [TIOCGWINSZ] call: two [unsigned short]
    fields (the pixel fields are not read). *)
Record winsize := { ws_row : N; ws_col : N }.

(** What the process reads from its surroundings: the clock value that
    seeds the engine, what [ioctl] returned and left in [w], whether the
    allocations of [initializeMatrix] succeed, and how many polls of
    [kbhit()] come back false before a key is seen. *)
Record Env := {
  clock : Z;
  ioctl_result : Z;
  ioctl_winsize : winsize;
  memory_ok : bool;
  frames_before_key : nat
}.

(** A C++ call either returns or leaves by a [std::exception]. *)
Inductive outcome (A : Type) : Type :=
| Returned (a : A)
| Thrown (what : string).
Arguments Returned {A} a.
Arguments Thrown {A} what.

(** What the process does to standard output, in program order: it inserts
    bytes into [std::cout], flushes [std::cout], or runs a command with
    [system], whose child process writes to the same descriptor.  Which
    bytes the child writes is decided by the command and the terminal
    database, and when inserted bytes reach the descriptor by the buffering
    of the stream; the embedding records the calls and not those bytes. *)
Inductive output :=
| Insert (bytes : list ascii)
| Flush
| System (command : string).

(** The bytes that the process itself inserts into [std::cout]. *)
Fixpoint inserted (out : list output) : list ascii :=
  match out with
  | [] => []
  | Insert bytes :: out => bytes ++ inserted out
  | _ :: out => inserted out
  end.

(** What [main] leaves behind. *)
Record Exit := { exit_code : Z; stdout : list output; stderr : list ascii }.

(** The view of one drop that the column loop works on:
    [drops[col]], [speeds[col]], [lengths[col]] and [counters[col]]. *)
Record Column := {
  headRow : Z;
  speed : Z;
  trailLength : Z;
  tickCounter : Z
}.

(** The rows of a frame with a separator between consecutive rows and none
    after the last. *)
Fixpoint join_rows (sep : ascii) (rows : list (list ascii)) : list ascii :=
  match rows with
  | [] => []
  | [r] => r
  | r :: rest => r ++ sep :: join_rows sep rest
  end.

(** The characters of [matrix_chars] as the comment at line 32 describes
    them (katakana, digits, symbols): the UTF-8 sequences of the literal. *)
Definition utf8_width (lead : ascii) : nat :=
  let n := nat_of_ascii lead in
  if (n <? 128)%nat then 1%nat
  else if (n <? 224)%nat then 2%nat
  else if (n <? 240)%nat then 3%nat else 4%nat.

Fixpoint utf8_split (fuel : nat) (bytes : list ascii) : list (list ascii) :=
  match fuel, bytes with
  | S fuel, b :: _ =>
      take (utf8_width b) bytes :: utf8_split fuel (drop (utf8_width b) bytes)
  | _, _ => []
  end.

Definition symbol_alphabet : list (list ascii) :=
  let bytes := list_ascii_of_string matrix_chars in
  utf8_split (length bytes) bytes.

(** Whether a byte sequence is one of those characters. *)
Definition in_alphabet (glyph : list ascii) : bool :=
  existsb
    (fun ch => if List.list_eq_dec ascii_dec ch glyph then true else false)
    symbol_alphabet.

(** How many of the indices [0 .. matrix_chars.length() - 1] that
    [char_dist] can return select the byte [c]. *)
Definition index_count (c : ascii) : nat :=
  length (List.filter (fun k => Ascii.eqb (matrix_char k) c)
                      (seqZ 0 matrix_chars_length)).

(** ** The order of the two draws in line 70

    [-spawn_dist(rng) - length_dist(rng)] calls the engine twice inside one
    expression.  C++ does not say which operand of the subtraction is
    evaluated first, and lets an implementation choose differently each
    time the expression is evaluated; every other draw of the program is a
    full statement of its own.  The choice is a parameter of the embedding:
    which operand goes first in the evaluation for column [i]. *)

Inductive operand_order := left_first | right_first.

Class EvaluationOrder := { line_70 : Z -> operand_order }.

Definition left_to_right : EvaluationOrder := {| line_70 := fun _ => left_first |}.

Section Simulation.
Context {R : RandomSource} {Ord : EvaluationOrder}.

(** ** The object state: the data members of [class Matrix] *)

Record Matrix := mkMatrix {
  width : Z;
  height : Z;
  screen : list (list ascii);
  brightness : list (list Z);
  drops : list Z;
  speeds : list Z;
  lengths : list Z;
  counters : list Z;
  rng : engine
}.

Definition set_size (w h : Z) (m : Matrix) : Matrix :=
  mkMatrix w h (screen m) (brightness m) (drops m) (speeds m) (lengths m)
           (counters m) (rng m).

Definition set_screen (s : list (list ascii)) (m : Matrix) : Matrix :=
  mkMatrix (width m) (height m) s (brightness m) (drops m) (speeds m)
           (lengths m) (counters m) (rng m).

Definition set_brightness (b : list (list Z)) (m : Matrix) : Matrix :=
  mkMatrix (width m) (height m) (screen m) b (drops m) (speeds m)
           (lengths m) (counters m) (rng m).

Definition set_drops (v : list Z) (m : Matrix) : Matrix :=
  mkMatrix (width m) (height m) (screen m) (brightness m) v (speeds m)
           (lengths m) (counters m) (rng m).

Definition set_speeds (v : list Z) (m : Matrix) : Matrix :=
  mkMatrix (width m) (height m) (screen m) (brightness m) (drops m) v
           (lengths m) (counters m) (rng m).

Definition set_lengths (v : list Z) (m : Matrix) : Matrix :=
  mkMatrix (width m) (height m) (screen m) (brightness m) (drops m)
           (speeds m) v (counters m) (rng m).

Definition set_counters (v : list Z) (m : Matrix) : Matrix :=
  mkMatrix (width m) (height m) (screen m) (brightness m) (drops m)
           (speeds m) (lengths m) v (rng m).

Definition set_rng (g : engine) (m : Matrix) : Matrix :=
  mkMatrix (width m) (height m) (screen m) (brightness m) (drops m)
           (speeds m) (lengths m) (counters m) g.

(** [dist(rng)]: one draw, the engine advanced in place. *)
Definition draw (dist : Z * Z) (m : Matrix) : Z * Matrix :=
  let '(x, g) := uniform_int (fst dist) (snd dist) (rng m) in (x, set_rng g m).

(** [screen[row][col]], [brightness[row][col]] and the assignments to them. *)
Definition screen_at (m : Matrix) (row col : Z) : ascii :=
  grid_get space (screen m) row col.

Definition brightness_at (m : Matrix) (row col : Z) : Z :=
  grid_get 0 (brightness m) row col.

Definition put_screen (row col : Z) (c : ascii) (m : Matrix) : Matrix :=
  set_screen (grid_set (screen m) row col c) m.

Definition put_brightness (row col : Z) (b : Z) (m : Matrix) : Matrix :=
  set_brightness (grid_set (brightness m) row col b) m.

(** ** Construction *)

(** The members as the constructor's initialiser list leaves them: the
    engine seeded, every vector empty, [width] and [height] not yet
    assigned (they are written by [getTerminalSize] before any read). *)
Definition fresh_object (seed : Z) : Matrix :=
  mkMatrix 0 0 [] [] [] [] [] [] (seed_engine seed).

(** [getTerminalSize]: the result of [ioctl] is not inspected; the two
    fields of [w] are copied whatever the call returned. *)
Definition getTerminalSize (w : winsize) (m : Matrix) : Matrix :=
  set_size (Z.of_N (ws_col w)) (Z.of_N (ws_row w)) m.

(** Right-hand side of line 70, [-spawn_dist(rng) - length_dist(rng)], with
    the operand that is evaluated first. *)
Definition spawn_row (first : operand_order) (m : Matrix) : Z * Matrix :=
  match first with
  | left_first =>
      let '(spawn, m) := draw spawn_dist m in
      let '(len, m) := draw length_dist m in
      (- spawn - len, m)
  | right_first =>
      let '(len, m) := draw length_dist m in
      let '(spawn, m) := draw spawn_dist m in
      (- spawn - len, m)
  end.

(** One iteration of the loop at lines 69-74. *)
Definition init_column (i : Z) (m : Matrix) : Matrix :=
  let '(row, m) := spawn_row (line_70 i) m in
  let m := set_drops (vset (drops m) i row) m in
  let '(sp, m) := draw speed_dist m in
  let m := set_speeds (vset (speeds m) i sp) m in
  let '(len, m) := draw length_dist m in
  let m := set_lengths (vset (lengths m) i len) m in
  set_counters (vset (counters m) i 0) m.

Definition initializeMatrix (m : Matrix) : Matrix :=
  let h := Z.to_nat (height m) in
  let w := Z.to_nat (width m) in
  let m := set_screen (resize h (replicate w space) (screen m)) m in
  let m := set_brightness (resize h (replicate w 0) (brightness m)) m in
  let m := set_drops (resize w 0 (drops m)) m in
  let m := set_speeds (resize w 0 (speeds m)) m in
  let m := set_lengths (resize w 0 (lengths m)) m in
  let m := set_counters (resize w 0 (counters m)) m in
  for_loop 0 (width m) init_column m.

(** [Matrix::Matrix()], with the clock reading that seeds the engine and the
    terminal size as inputs. *)
Definition construct (seed : Z) (w : winsize) : Matrix :=
  initializeMatrix (getTerminalSize w (fresh_object seed)).

(** ** One tick: [update()] *)

(** Body of the fade loops, lines 163-169. *)
Definition fade_cell (row col : Z) (m : Matrix) : Matrix :=
  if 0 <? brightness_at m row col then
    let m := put_brightness row col (brightness_at m row col - 3) m in
    if brightness_at m row col <=? 0 then
      put_screen row col space (put_brightness row col 0 m)
    else m
  else m.

Definition fade (m : Matrix) : Matrix :=
  for_loop 0 (height m) (fun row m =>
    for_loop 0 (width m) (fun col m => fade_cell row col m) m) m.

(** Lines 183-186: the head of the drop. *)
Definition draw_head (col : Z) (m : Matrix) : Matrix :=
  let head := vget (drops m) col in
  if (0 <=? head) && (head <? height m) then
    let '(k, m) := draw char_dist m in
    let m := put_screen head col (matrix_char k) m in
    put_brightness head col 10 m
  else m.

(** Lines 190-196: one tail offset [i]. *)
Definition tail_step (col i : Z) (m : Matrix) : Matrix :=
  let tail_row := vget (drops m) col - i in
  if (0 <=? tail_row) && (tail_row <? height m) then
    if brightness_at m tail_row col <? 10 - i then
      let '(k, m) := draw char_dist m in
      let m := put_screen tail_row col (matrix_char k) m in
      put_brightness tail_row col (Z.max 1 (10 - i)) m
    else m
  else m.

(** Lines 189-197.  The bound [lengths[col]] is not written by the body. *)
Definition draw_tail (col : Z) (m : Matrix) : Matrix :=
  for_loop 1 (vget (lengths m) col) (tail_step col) m.

(** Lines 200-204: the reset of a drop that has left the screen.  The new
    head row subtracts [lengths[col]] as it is before line 203 replaces it. *)
Definition respawn (col : Z) (m : Matrix) : Matrix :=
  if height m <? vget (drops m) col - vget (lengths m) col then
    let '(spawn, m) := draw spawn_dist m in
    let row := - spawn - vget (lengths m) col in
    let m := set_drops (vset (drops m) col row) m in
    let '(sp, m) := draw speed_dist m in
    let m := set_speeds (vset (speeds m) col sp) m in
    let '(len, m) := draw length_dist m in
    set_lengths (vset (lengths m) col len) m
  else m.

(** Line 175. *)
Definition count_tick (col : Z) (m : Matrix) : Matrix :=
  set_counters (vset (counters m) col (vget (counters m) col + 1)) m.

(** Lines 179-180. *)
Definition move_head (col : Z) (m : Matrix) : Matrix :=
  let m := set_counters (vset (counters m) col 0) m in
  set_drops (vset (drops m) col (vget (drops m) col + 1)) m.

(** Lines 179-204: what an advancing column does. *)
Definition advance_column (col : Z) (m : Matrix) : Matrix :=
  respawn col (draw_tail col (draw_head col (move_head col m))).

(** Lines 175-205: the body of the column loop. *)
Definition update_column (col : Z) (m : Matrix) : Matrix :=
  let m := count_tick col m in
  if vget (speeds m) col <=? vget (counters m) col then advance_column col m
  else m.

Definition advance (m : Matrix) : Matrix :=
  for_loop 0 (width m) update_column m.

Definition update (m : Matrix) : Matrix := advance (fade m).

(** ** Painting: [render()]

    What the POSIX branch writes to [std::cout], as the bytes appended to
    the stream. *)

Definition text (s : string) : list ascii := list_ascii_of_string s.
Definition esc : ascii := "027"%char.
Definition newline : ascii := "010"%char.

Definition cursor_home : list ascii := esc :: text "[H".
Definition bright_green : list ascii := esc :: text "[92m".
Definition dim_green : list ascii := esc :: text "[32m".
Definition color_reset : list ascii := esc :: text "[0m".

Definition setGreenText (brightness_level : Z) : list ascii :=
  if 5 <? brightness_level then bright_green else dim_green.

Definition resetColor : list ascii := color_reset.

(** Lines 221-227: what one cell writes. *)
Definition render_cell (m : Matrix) (row col : Z) : list ascii :=
  if negb (Ascii.eqb (screen_at m row col) space)
     && (0 <? brightness_at m row col)
  then setGreenText (brightness_at m row col)
       ++ [screen_at m row col] ++ resetColor
  else [space].

(** Lines 219-230: the two loops, the stream as the loop state. *)
Definition render_rows (m : Matrix) (out : list ascii) : list ascii :=
  for_loop 0 (height m) (fun row out =>
    let out :=
      for_loop 0 (width m) (fun col out => out ++ render_cell m row col) out in
    if row <? height m - 1 then out ++ [newline] else out) out.

Definition render (m : Matrix) : list ascii := render_rows m cursor_home.

(** How many lines a stream of bytes breaks into, less one. *)
Definition newlines (out : list ascii) : nat :=
  count_occ ascii_dec out newline.

(** What the inner loop writes for one row. *)
Definition render_row (m : Matrix) (row : Z) : list ascii :=
  concat (map (render_cell m row) (seqZ 0 (width m))).

(** The object after [n] calls of [update()]. *)
Definition simulate (seed : Z) (w : winsize) (n : nat) : Matrix :=
  Nat.iter n update (construct seed w).


Definition column (m : Matrix) (col : Z) : Column :=
  {| headRow := vget (drops m) col;
     speed := vget (speeds m) col;
     trailLength := vget (lengths m) col;
     tickCounter := vget (counters m) col |}.

(** ** The session: [run()] and [main()] *)

Definition hideCursor : list ascii := esc :: text "[?25l".
Definition showCursor : list ascii := esc :: text "[?25h".
Definition start_banner : list ascii :=
  text "Matrix Digital Rain - Press any key to exit" ++ [newline].
Definition end_banner : list ascii :=
  text "Matrix effect terminated." ++ [newline].

(** [clearScreen()], lines 77-83: [system("clear")]. *)
Definition clearScreen : list output := [System "clear"].

(** [render()] as the session sees it: the bytes of lines 215-230, then the
    flush of line 231. *)
Definition paint (m : Matrix) : list output := [Insert (render m); Flush].

(** The loop at lines 249-253, for the [n] polls of [kbhit()] that see no
    key.  [sleep_ms] writes nothing. *)
Fixpoint animate (n : nat) (m : Matrix) (out : list output)
  : Matrix * list output :=
  match n with
  | O => (m, out)
  | S n => let m := update m in animate n m (out ++ paint m)
  end.

(** Lines 242-259. *)
Definition run (env : Env) (m : Matrix) : Matrix * list output :=
  let out := clearScreen ++ [Insert hideCursor; Insert start_banner] in
  let '(m, out) := animate (frames_before_key env) m out in
  (m, out ++ [Insert showCursor; Insert resetColor] ++ clearScreen
          ++ [Insert end_banner]).

(** [Matrix matrix;] inside the [try]: the only call that can leave by an
    exception is an allocation in [initializeMatrix]. *)
Definition Matrix_ctor (env : Env) : outcome Matrix :=
  if memory_ok env then Returned (construct (clock env) (ioctl_winsize env))
  else Thrown "std::bad_alloc".

(** Lines 262-272. *)
Definition main (env : Env) : Exit :=
  match Matrix_ctor env with
  | Returned m =>
      {| exit_code := 0; stdout := snd (run env m); stderr := [] |}
  | Thrown what =>
      {| exit_code := 1; stdout := [];
         stderr := text "Error: " ++ text what ++ [newline] |}
  end.

(** ** Invariants of the object *)

(** The vectors have the sizes [initializeMatrix] gave them. *)
Record sized (m : Matrix) : Prop := {
  sized_width : 0 <= width m;
  sized_height : 0 <= height m;
  sized_screen : length (screen m) = Z.to_nat (height m);
  sized_screen_rows :
    Forall (fun r => length r = Z.to_nat (width m)) (screen m);
  sized_brightness : length (brightness m) = Z.to_nat (height m);
  sized_brightness_rows :
    Forall (fun r => length r = Z.to_nat (width m)) (brightness m);
  sized_drops : length (drops m) = Z.to_nat (width m);
  sized_speeds : length (speeds m) = Z.to_nat (width m);
  sized_lengths : length (lengths m) = Z.to_nat (width m);
  sized_counters : length (counters m) = Z.to_nat (width m)
}.

Definition bright_ok (m : Matrix) : Prop :=
  Forall (Forall (fun b => 0 <= b <= 10)) (brightness m).

Definition blank_iff_dark (c : ascii) (b : Z) : Prop := c = space <-> b = 0.

Definition glyph_ok (m : Matrix) : Prop :=
  Forall2 (Forall2 blank_iff_dark) (screen m) (brightness m).

(** What a cell of [screen] can hold: the space it is initialised and
    cleared with, or a byte [matrix_chars[k]] at an index that [char_dist]
    can return. *)
Definition symbol (c : ascii) : Prop :=
  c = space \/ exists k, 0 <= k <= matrix_chars_length - 1 /\ c = matrix_char k.

Definition symbols_only (m : Matrix) : Prop :=
  Forall (Forall symbol) (screen m).

Definition column_ok (c : Column) : Prop :=
  1 <= speed c <= 4 /\ 7 <= trailLength c <= 10 /\ 0 <= tickCounter c < speed c.

Definition columns_ok (m : Matrix) : Prop :=
  forall col, 0 <= col < width m -> column_ok (column m col).

(** No trail is further below the screen than the reset test allows. *)
Definition on_track (m : Matrix) : Prop :=
  forall col,
    0 <= col < width m ->
    headRow (column m col) - trailLength (column m col) <= height m.

(** Every cell of the visible area has brightness 0. *)
Definition blank (m : Matrix) : Prop :=
  forall row col,
    0 <= row < height m -> 0 <= col < width m -> brightness_at m row col = 0.

(** ** What a statement leaves alone

    Three views of the object, used to say which part a statement does not
    touch. *)

(** The sizes of everything the constructor allocated. *)
Definition dims (m : Matrix) :=
  (width m, height m, length <$> screen m, length <$> brightness m,
   (length (drops m), length (speeds m), length (lengths m),
    length (counters m))).

(** The four per-column vectors. *)
Definition cols (m : Matrix) := (drops m, speeds m, lengths m, counters m).

(** The two grids. *)
Definition grids (m : Matrix) := (screen m, brightness m).

(** One cell: [screen[row][col]] with [brightness[row][col]]. *)
Definition cell (m : Matrix) (row col : Z) : ascii * Z :=
  (screen_at m row col, brightness_at m row col).

End Simulation.

(** ** Polling the keyboard: [kbhit()]

    Standard input as the calls of [kbhit()] see it: the terminal attributes
    ([struct termios]), the file status flags of the descriptor, and the
    bytes that a [getchar()] finds without waiting, in the order in which it
    would return them.  The values of [ICANON], [ECHO] and [O_NONBLOCK] are
    those of the platform's headers.  The error indicator that a failed
    read leaves on [stdin] is read nowhere in the program and is not part of
    the state. *)

Record termios := {
  c_iflag : Z;
  c_oflag : Z;
  c_cflag : Z;
  c_lflag : Z;
  c_cc : list Z
}.

Record Stdin := {
  attributes : termios;
  status_flags : Z;
  pending : list ascii
}.

Record flag_values := { ICANON : Z; ECHO : Z; O_NONBLOCK : Z }.

(** [newt.c_lflag &= ~mask]. *)
Definition clear_lflag (mask : Z) (a : termios) : termios :=
  {| c_iflag := c_iflag a; c_oflag := c_oflag a; c_cflag := c_cflag a;
     c_lflag := Z.land (c_lflag a) (Z.lnot mask); c_cc := c_cc a |}.

Definition tcgetattr (t : Stdin) : termios := attributes t.

Definition tcsetattr (a : termios) (t : Stdin) : Stdin :=
  {| attributes := a; status_flags := status_flags t; pending := pending t |}.

Definition fcntl_getfl (t : Stdin) : Z := status_flags t.

Definition fcntl_setfl (flags : Z) (t : Stdin) : Stdin :=
  {| attributes := attributes t; status_flags := flags; pending := pending t |}.

(** [getchar()]: the next byte when there is one; with nothing to read,
    [EOF] ([None]) on a non-blocking descriptor, and on a blocking one the
    call does not return before input arrives ([Waits]). *)
Inductive call (A : Type) : Type :=
| Returns (a : A)
| Waits.
Arguments Returns {A} a.
Arguments Waits {A}.

Definition getchar (K : flag_values) (t : Stdin) : call (option ascii * Stdin) :=
  match pending t with
  | c :: rest =>
      Returns (Some c, {| attributes := attributes t;
                          status_flags := status_flags t;
                          pending := rest |})
  | [] =>
      if Z.land (status_flags t) (O_NONBLOCK K) =? 0 then Waits
      else Returns (None, t)
  end.

Definition ungetc (c : ascii) (t : Stdin) : Stdin :=
  {| attributes := attributes t; status_flags := status_flags t;
     pending := c :: pending t |}.

(** Lines 139-144: standard input as [getchar()] finds it. *)
Definition kbhit_prepare (K : flag_values) (t : Stdin) : termios * Z * Stdin :=
  let oldt := tcgetattr t in
  let newt := clear_lflag (Z.lor (ICANON K) (ECHO K)) oldt in
  let t := tcsetattr newt t in
  let oldf := fcntl_getfl t in
  let t := fcntl_setfl (Z.lor oldf (O_NONBLOCK K)) t in
  (oldt, oldf, t).

(** Lines 135-155. *)
Definition kbhit (K : flag_values) (t : Stdin) : call (bool * Stdin) :=
  let '(oldt, oldf, t) := kbhit_prepare K t in
  match getchar K t with
  | Waits => Waits
  | Returns (ch, t) =>
      let t := tcsetattr oldt t in
      let t := fcntl_setfl oldf t in
      match ch with
      | Some c => Returns (true, ungetc c t)
      | None => Returns (false, t)
      end
  end.

(** ** Two objects in step

    Objects driven by two engines agree on everything but the engine, and
    the two engine states are related by [sim]. *)
Definition same_view {R1 R2 : RandomSource}
    (sim : @engine R1 -> @engine R2 -> Prop)
    (m1 : @Matrix R1) (m2 : @Matrix R2) : Prop :=
  width m1 = width m2 /\ height m1 = height m2 /\
  screen m1 = screen m2 /\ brightness m1 = brightness m2 /\
  drops m1 = drops m2 /\ speeds m1 = speeds m2 /\
  lengths m1 = lengths m2 /\ counters m1 = counters m2 /\
  sim (rng m1) (rng m2).

(** ** Inputs of the worked instances *)

Definition term_1x1 : winsize := {| ws_row := 1; ws_col := 1 |}.
Definition term_5x3 : winsize := {| ws_row := 5; ws_col := 3 |}.

(** Runs on the linear congruential engine, line 70 evaluated from left to
    right. *)
Definition rain_5x3 (n : nat) : @Matrix lcg :=
  simulate (Ord := left_to_right) 42 term_5x3 n.
Definition rain_1x1 (seed : Z) (n : nat) : @Matrix lcg :=
  simulate (Ord := left_to_right) seed term_1x1 n.

(** The object on reaching line 200 in the 48th tick of [rain_1x1 10]. *)
Definition at_line_200 : @Matrix lcg :=
  draw_tail 0
    (draw_head 0 (move_head 0 (count_tick 0 (fade (rain_1x1 10 47))))).


(** A freshly built object on a terminal of two rows and three columns. *)
Definition fresh_2x3 : @Matrix lcg :=
  construct (Ord := left_to_right) 42 {| ws_row := 2; ws_col := 3 |}.

(** Standard output is not a terminal: [ioctl] fails with -1 and leaves [w]
    as it found it (here two rows of three columns); a key is pressed after
    two frames. *)
Definition not_a_terminal : Env :=
  {| clock := 42;
     ioctl_result := -1;
     ioctl_winsize := {| ws_row := 2; ws_col := 3 |};
     memory_ok := true;
     frames_before_key := 2 |}.

(** The flag values of the Linux headers, and standard input of a terminal
    in its usual line mode with the key [q] typed. *)
Definition linux_flags : flag_values :=
  {| ICANON := 2; ECHO := 8; O_NONBLOCK := 2048 |}.

Definition key_typed : Stdin :=
  {| attributes := {| c_iflag := 17664; c_oflag := 5; c_cflag := 191;
                      c_lflag := 35387; c_cc := [3; 28; 127; 21; 4] |};
     status_flags := 2;
     pending := ["q"%char] |}.

(** * Properties *)

(** ** Counted loops *)

Lemma for_loop_done {St : Type} lo hi (body : Z -> St -> St) s :
  hi <= lo -> for_loop lo hi body s = s.
Proof. intros H. unfold for_loop. rewrite seqZ_nil by lia. reflexivity. Qed.

Lemma for_loop_first {St : Type} lo hi (body : Z -> St -> St) s :
  lo < hi -> for_loop lo hi body s = for_loop (lo + 1) hi body (body lo s).
Proof.
  intros H. unfold for_loop. rewrite (seqZ_cons lo) by lia. cbn [fold_left].
  do 2 f_equal; lia.
Qed.

Lemma for_loop_split {St : Type} lo mid hi (body : Z -> St -> St) s :
  lo <= mid <= hi ->
  for_loop lo hi body s = for_loop mid hi body (for_loop lo mid body s).
Proof.
  intros H. unfold for_loop.
  replace (hi - lo) with ((mid - lo) + (hi - mid)) by lia.
  rewrite seqZ_app by lia. rewrite fold_left_app.
  do 2 f_equal; lia.
Qed.

Lemma for_loop_last {St : Type} lo hi (body : Z -> St -> St) s :
  lo < hi ->
  for_loop lo hi body s = body (hi - 1) (for_loop lo (hi - 1) body s).
Proof.
  intros H. rewrite (for_loop_split lo (hi - 1) hi) by lia.
  rewrite (for_loop_first (hi - 1)) by lia.
  rewrite for_loop_done by lia. reflexivity.
Qed.

(** The loop rule: a property of the state that every iteration keeps. *)
Lemma for_loop_invariant {St : Type} (P : St -> Prop) lo hi
      (body : Z -> St -> St) s :
  P s ->
  (forall i x, lo <= i < hi -> P x -> P (body i x)) ->
  P (for_loop lo hi body s).
Proof.
  intros Hs Hbody. unfold for_loop.
  assert (Hin : forall i, i ∈ seqZ lo (hi - lo) -> lo <= i < hi).
  { intros i Hi. apply elem_of_seqZ in Hi. lia. }
  revert s Hs Hin. induction (seqZ lo (hi - lo)) as [|i l IH]; intros s Hs Hin.
  - exact Hs.
  - cbn [fold_left]. apply IH.
    + apply Hbody; [apply Hin; left | exact Hs].
    + intros j Hj. apply Hin. right. exact Hj.
Qed.

(** A loop that only appends to a stream appends the chunks in order. *)
Lemma for_loop_emit {A : Type} lo hi (chunk : Z -> list A) (out : list A) :
  for_loop lo hi (fun i out => out ++ chunk i) out
  = out ++ concat (map chunk (seqZ lo (hi - lo))).
Proof.
  unfold for_loop. revert out.
  induction (seqZ lo (hi - lo)) as [|i l IH]; intros out; cbn.
  - rewrite app_nil_r. reflexivity.
  - rewrite IH. rewrite <- app_assoc. reflexivity.
Qed.

Lemma for_loop_ext {St : Type} lo hi (body body' : Z -> St -> St) s :
  (forall i x, lo <= i < hi -> body i x = body' i x) ->
  for_loop lo hi body s = for_loop lo hi body' s.
Proof.
  intros Hext. unfold for_loop.
  assert (Hin : forall i, i ∈ seqZ lo (hi - lo) -> lo <= i < hi).
  { intros i Hi. apply elem_of_seqZ in Hi. lia. }
  revert s Hin. induction (seqZ lo (hi - lo)) as [|i l IH]; intros s Hin.
  - reflexivity.
  - cbn [fold_left]. rewrite Hext by (apply Hin; left).
    apply IH. intros j Hj. apply Hin. right. exact Hj.
Qed.

(** Chunks that each end in a separator, except the one of the last index,
    are the chunks joined by the separator. *)
Lemma concat_separated (chunk : Z -> list ascii) sep (n : nat) lo :
  concat (map (fun i => chunk i ++ if i <? lo + Z.of_nat n - 1 then [sep] else [])
              (seqZ lo (Z.of_nat n)))
  = join_rows sep (map chunk (seqZ lo (Z.of_nat n))).
Proof.
  revert lo. induction n as [|n IH]; intros lo; [reflexivity|].
  rewrite (seqZ_cons lo) by lia. cbn [map concat].
  replace (Z.pred (Z.of_nat (S n))) with (Z.of_nat n) by lia.
  specialize (IH (Z.succ lo)).
  replace (Z.succ lo + Z.of_nat n - 1) with (lo + Z.of_nat (S n) - 1) in IH by lia.
  rewrite IH.
  destruct (Z.ltb_spec lo (lo + Z.of_nat (S n) - 1)) as [Hlt|Hge].
  - destruct n as [|n]; [lia|].
    rewrite (seqZ_cons (Z.succ lo)) by lia. cbn [map join_rows].
    rewrite <- app_assoc. reflexivity.
  - destruct n as [|n]; [|lia]. cbn. by rewrite !app_nil_r.
Qed.

(** ** Vectors and grids *)

Lemma vget_vset_same v i x :
  0 <= i -> (Z.to_nat i < length v)%nat -> vget (vset v i x) i = x.
Proof.
  intros _ Hi. unfold vget, vset.
  rewrite list_lookup_insert_eq by exact Hi. reflexivity.
Qed.

Lemma vget_vset_other v i j x :
  0 <= i -> 0 <= j -> i <> j -> vget (vset v i x) j = vget v j.
Proof.
  intros Hi Hj Hne. unfold vget, vset.
  rewrite list_lookup_insert_ne by lia. reflexivity.
Qed.

Lemma length_vset v i x : length (vset v i x) = length v.
Proof. apply length_insert. Qed.

(** Reading a cell after a write: the written cell, when it exists, holds
    the new value; every other cell is as before. *)
Lemma grid_get_set {A : Type} (d : A) g row col x row' col' :
  0 <= row -> 0 <= col -> 0 <= row' -> 0 <= col' ->
  grid_get d (grid_set g row col x) row' col'
  = if decide (row' = row /\ col' = col /\
               is_Some (g !! Z.to_nat row ≫= fun r => r !! Z.to_nat col))
    then x else grid_get d g row' col'.
Proof.
  intros Hr Hc Hr' Hc'. unfold grid_get, grid_set.
  destruct (decide (row' = row)) as [->|Hrow].
  - rewrite list_lookup_alter_eq.
    destruct (g !! Z.to_nat row) as [r|] eqn:Hg; cbn.
    + destruct (decide (col' = col)) as [->|Hcol].
      * destruct (r !! Z.to_nat col) as [y|] eqn:Hy.
        -- rewrite list_lookup_insert_eq by (eapply lookup_lt_Some; eauto).
           rewrite decide_True; [reflexivity|]. split_and!; eauto.
        -- rewrite list_insert_ge by (apply lookup_ge_None; exact Hy).
           rewrite Hy. rewrite decide_False; [reflexivity|].
           intros (_ & _ & [? ?]). discriminate.
      * rewrite list_lookup_insert_ne by lia.
        rewrite decide_False by tauto. reflexivity.
    + rewrite decide_False; [reflexivity|]. intros (_ & _ & [? ?]). discriminate.
  - rewrite list_lookup_alter_ne by lia.
    rewrite decide_False by tauto. reflexivity.
Qed.

Lemma grid_get_Some {A : Type} (d : A) g row col :
  grid_get d g row col <> d ->
  is_Some (g !! Z.to_nat row ≫= fun r => r !! Z.to_nat col).
Proof.
  unfold grid_get. destruct (g !! Z.to_nat row ≫= _); cbn; [eauto|congruence].
Qed.

Lemma grid_get_None {A : Type} (d : A) g row col :
  ~ is_Some (g !! Z.to_nat row ≫= fun r => r !! Z.to_nat col) ->
  grid_get d g row col = d.
Proof.
  unfold grid_get. destruct (g !! Z.to_nat row ≫= _); cbn; [|reflexivity].
  intros H. exfalso. eauto.
Qed.

Lemma grid_set_twice {A : Type} (g : list (list A)) row col x y :
  grid_set (grid_set g row col x) row col y = grid_set g row col y.
Proof.
  unfold grid_set. rewrite list_alter_alter_eq.
  apply list_alter_ext; [|reflexivity]. intros r _. cbn.
  apply list_insert_insert_eq.
Qed.

(** The loop rule with the loop counter in the invariant. *)
Lemma for_loop_invariant_at {St : Type} (I : Z -> St -> Prop) lo hi
      (body : Z -> St -> St) s :
  lo <= hi ->
  I lo s ->
  (forall i x, lo <= i < hi -> I i x -> I (i + 1) (body i x)) ->
  I hi (for_loop lo hi body s).
Proof.
  intros Hle Hs Hbody.
  assert (Hgen : forall n : nat, lo + Z.of_nat n <= hi ->
                 I (lo + Z.of_nat n) (for_loop lo (lo + Z.of_nat n) body s)).
  { induction n as [|n IH]; intros Hn.
    - rewrite Z.add_0_r. rewrite for_loop_done by lia. exact Hs.
    - rewrite for_loop_last by lia.
      replace (lo + Z.of_nat (S n) - 1) with (lo + Z.of_nat n) by lia.
      replace (lo + Z.of_nat (S n)) with (lo + Z.of_nat n + 1) by lia.
      apply Hbody; [lia|]. apply IH. lia. }
  specialize (Hgen (Z.to_nat (hi - lo))).
  replace (lo + Z.of_nat (Z.to_nat (hi - lo))) with hi in Hgen by lia.
  apply Hgen. lia.
Qed.

Lemma fmap_length_grid_set {A : Type} (g : list (list A)) row col x :
  length <$> grid_set g row col x = length <$> g.
Proof.
  unfold grid_set. apply list_eq. intros i. rewrite !list_lookup_fmap.
  destruct (decide (i = Z.to_nat row)) as [->|Hne].
  - rewrite list_lookup_alter_eq. destruct (g !! Z.to_nat row); cbn; [|done].
    by rewrite length_insert.
  - by rewrite list_lookup_alter_ne.
Qed.

Lemma Forall_grid_set {A : Type} (P : A -> Prop) (g : list (list A)) row col x :
  Forall (Forall P) g -> P x -> Forall (Forall P) (grid_set g row col x).
Proof.
  intros Hg Hx. apply Forall_alter; [exact Hg|].
  intros r _ Hr. apply Forall_insert; assumption.
Qed.

Lemma Forall2_grid_set {A B : Type} (P : A -> B -> Prop)
      (g1 : list (list A)) (g2 : list (list B)) row col x y :
  Forall2 (Forall2 P) g1 g2 -> P x y ->
  Forall2 (Forall2 P) (grid_set g1 row col x) (grid_set g2 row col y).
Proof.
  intros Hg Hxy. apply Forall2_alter; [exact Hg|].
  intros r1 r2 _ _ Hr. apply Forall2_insert; assumption.
Qed.

(** A cell that reads as something else than the default is a cell of the
    grid, and a cell of the grid satisfies what every cell satisfies. *)
Lemma Forall_grid_get {A : Type} (P : A -> Prop) (d : A) g row col :
  Forall (Forall P) g -> P d -> P (grid_get d g row col).
Proof.
  intros Hg Hd. unfold grid_get.
  destruct (g !! Z.to_nat row) as [r|] eqn:Hr; cbn; [|exact Hd].
  destruct (r !! Z.to_nat col) as [x|] eqn:Hx; cbn; [|exact Hd].
  eapply Forall_lookup_1; [|exact Hx]. eapply Forall_lookup_1; eauto.
Qed.

Lemma Forall2_grid_get {A B : Type} (P : A -> B -> Prop) (d1 : A) (d2 : B)
      g1 g2 row col :
  Forall2 (Forall2 P) g1 g2 -> P d1 d2 ->
  P (grid_get d1 g1 row col) (grid_get d2 g2 row col).
Proof.
  intros Hg Hd. unfold grid_get.
  destruct (g1 !! Z.to_nat row) as [r1|] eqn:Hr1.
  - destruct (Forall2_lookup_l _ _ _ _ _ Hg Hr1) as (r2 & Hr2 & Hrow).
    rewrite Hr2. cbn.
    destruct (r1 !! Z.to_nat col) as [x|] eqn:Hx.
    + destruct (Forall2_lookup_l _ _ _ _ _ Hrow Hx) as (y & Hy & Hxy).
      rewrite Hy. exact Hxy.
    + assert (r2 !! Z.to_nat col = None) as ->.
      { apply lookup_ge_None. apply lookup_ge_None in Hx.
        rewrite <- (Forall2_length _ _ _ Hrow). exact Hx. }
      exact Hd.
  - assert (g2 !! Z.to_nat row = None) as ->.
    { apply lookup_ge_None. apply lookup_ge_None in Hr1.
      rewrite <- (Forall2_length _ _ _ Hg). exact Hr1. }
    exact Hd.
Qed.

(** ** The symbol string holds no space *)

Lemma get_in_string n s c :
  String.get n s = Some c -> In c (list_ascii_of_string s).
Proof.
  revert n. induction s as [|a s IH]; intros n H; [discriminate|].
  destruct n as [|n]; cbn in H |- *.
  - left. congruence.
  - right. eauto.
Qed.

Lemma matrix_char_not_space k : matrix_char k <> space.
Proof.
  unfold matrix_char.
  destruct (String.get (Z.to_nat k) matrix_chars) as [c|] eqn:Hc; cbn.
  - apply get_in_string in Hc.
    assert (Hall : List.forallb (fun a => negb (Ascii.eqb a space))
                     (list_ascii_of_string matrix_chars) = true)
      by (vm_compute; reflexivity).
    rewrite List.forallb_forall in Hall. specialize (Hall c Hc).
    intros ->. rewrite Ascii.eqb_refl in Hall. discriminate.
  - discriminate.
Qed.

Section Properties.
Context {R : RandomSource} {Ord : EvaluationOrder}.
Implicit Types m : Matrix.

(** ** What each statement leaves alone *)

Lemma draw_inv dist m x m' :
  draw dist m = (x, m') ->
  m' = set_rng (snd (uniform_int (fst dist) (snd dist) (rng m))) m
  /\ x = fst (uniform_int (fst dist) (snd dist) (rng m))
  /\ (fst dist <= snd dist -> fst dist <= x <= snd dist).
Proof.
  unfold draw. pose proof (uniform_int_range (fst dist) (snd dist) (rng m)) as Hr.
  destruct (uniform_int (fst dist) (snd dist) (rng m)) as [y g].
  intros [= <- <-]. cbn in *. auto.
Qed.

(** Steps through one [let '(x, m) := draw dist m in ...]. *)
Ltac step_draw x m' Hx :=
  match goal with
  | |- context [draw ?d ?m] =>
      let E := fresh "E" in
      let Hm := fresh "Hm" in
      let Hv := fresh "Hv" in
      destruct (draw d m) as [x m'] eqn:E;
      apply draw_inv in E as (Hm & Hv & Hx);
      cbn [fst snd spawn_dist speed_dist length_dist char_dist] in Hm, Hv, Hx
  end.

Lemma dims_set_rng g m : dims (set_rng g m) = dims m.
Proof. reflexivity. Qed.

Lemma dims_put_screen row col c m : dims (put_screen row col c m) = dims m.
Proof. unfold dims. cbn. by rewrite fmap_length_grid_set. Qed.

Lemma dims_put_brightness row col b m :
  dims (put_brightness row col b m) = dims m.
Proof. unfold dims. cbn. by rewrite fmap_length_grid_set. Qed.

Lemma dims_set_drops i x m : dims (set_drops (vset (drops m) i x) m) = dims m.
Proof. unfold dims. cbn. by rewrite length_vset. Qed.

Lemma dims_set_speeds i x m : dims (set_speeds (vset (speeds m) i x) m) = dims m.
Proof. unfold dims. cbn. by rewrite length_vset. Qed.

Lemma dims_set_lengths i x m :
  dims (set_lengths (vset (lengths m) i x) m) = dims m.
Proof. unfold dims. cbn. by rewrite length_vset. Qed.

Lemma dims_set_counters i x m :
  dims (set_counters (vset (counters m) i x) m) = dims m.
Proof. unfold dims. cbn. by rewrite length_vset. Qed.

Lemma dims_width m m' : dims m' = dims m -> width m' = width m.
Proof. unfold dims. congruence. Qed.

Lemma dims_height m m' : dims m' = dims m -> height m' = height m.
Proof. unfold dims. congruence. Qed.

Lemma sized_dims m m' : dims m' = dims m -> sized m -> sized m'.
Proof.
  unfold dims. intros [= Hw Hh Hs Hb Hd Hsp Hl Hc] [].
  assert (Hrows : forall (A : Type) (g g' : list (list A)) n,
             length <$> g' = length <$> g ->
             Forall (fun r => length r = n) g -> Forall (fun r => length r = n) g').
  { intros A g g' n Hgg Hg.
    apply (Forall_fmap length (fun k => k = n)). rewrite Hgg.
    apply (Forall_fmap length (fun k => k = n)). exact Hg. }
  split; rewrite ?Hw, ?Hh; try lia; eauto.
  - rewrite <- (length_fmap length), Hs, length_fmap. assumption.
  - rewrite <- (length_fmap length), Hb, length_fmap. assumption.
Qed.

(** *** The fade pass *)

Lemma fade_cell_frame row col m :
  dims (fade_cell row col m) = dims m /\
  cols (fade_cell row col m) = cols m /\
  rng (fade_cell row col m) = rng m.
Proof.
  unfold fade_cell.
  destruct (0 <? brightness_at m row col); [|done].
  destruct (_ <=? 0).
  - rewrite dims_put_screen, !dims_put_brightness. done.
  - rewrite dims_put_brightness. done.
Qed.

Lemma fade_frame m :
  dims (fade m) = dims m /\ cols (fade m) = cols m /\ rng (fade m) = rng m.
Proof.
  unfold fade.
  apply (for_loop_invariant
           (fun x => dims x = dims m /\ cols x = cols m /\ rng x = rng m));
    [done|].
  intros row x _ Hx.
  apply (for_loop_invariant
           (fun y => dims y = dims m /\ cols y = cols m /\ rng y = rng m));
    [exact Hx|].
  intros col y _ (Hd & Hc & Hg).
  destruct (fade_cell_frame row col y) as (Hd' & Hc' & Hg').
  split_and!; congruence.
Qed.

(** *** Drawing the head and the tail *)

Lemma draw_head_frame col m :
  dims (draw_head col m) = dims m /\ cols (draw_head col m) = cols m.
Proof.
  unfold draw_head. destruct (_ && _); [|done].
  step_draw k m' Hk. rewrite dims_put_brightness, dims_put_screen.
  rewrite Hm. done.
Qed.

Lemma tail_step_frame col i m :
  dims (tail_step col i m) = dims m /\ cols (tail_step col i m) = cols m.
Proof.
  unfold tail_step. destruct (_ && _); [|done].
  destruct (_ <? _); [|done].
  step_draw k m' Hk. rewrite dims_put_brightness, dims_put_screen.
  rewrite Hm. done.
Qed.

Lemma draw_tail_frame col m :
  dims (draw_tail col m) = dims m /\ cols (draw_tail col m) = cols m.
Proof.
  unfold draw_tail.
  apply (for_loop_invariant (fun x => dims x = dims m /\ cols x = cols m));
    [done|].
  intros i x _ (Hd & Hc). destruct (tail_step_frame col i x). split; congruence.
Qed.

(** *** The column bookkeeping *)

Lemma count_tick_frame col m :
  dims (count_tick col m) = dims m /\ grids (count_tick col m) = grids m /\
  rng (count_tick col m) = rng m.
Proof. unfold count_tick. rewrite dims_set_counters. done. Qed.

Lemma move_head_frame col m :
  dims (move_head col m) = dims m /\ grids (move_head col m) = grids m /\
  rng (move_head col m) = rng m.
Proof.
  unfold move_head. rewrite dims_set_drops, dims_set_counters. done.
Qed.

Lemma respawn_frame col m :
  dims (respawn col m) = dims m /\ grids (respawn col m) = grids m.
Proof.
  unfold respawn. destruct (_ <? _); [|done].
  step_draw spawn m1 Hs. step_draw sp m2 Hsp. step_draw len m3 Hl.
  rewrite dims_set_lengths. rewrite Hm1. rewrite dims_set_rng.
  rewrite dims_set_speeds. rewrite Hm0, dims_set_rng, dims_set_drops.
  rewrite Hm. done.
Qed.

Lemma advance_column_dims col m : dims (advance_column col m) = dims m.
Proof.
  unfold advance_column.
  rewrite (proj1 (respawn_frame _ _)), (proj1 (draw_tail_frame _ _)),
    (proj1 (draw_head_frame _ _)), (proj1 (move_head_frame _ _)). done.
Qed.

Lemma update_column_dims col m : dims (update_column col m) = dims m.
Proof.
  unfold update_column. destruct (_ <=? _).
  - rewrite advance_column_dims. apply count_tick_frame.
  - apply count_tick_frame.
Qed.

Lemma advance_dims m : dims (advance m) = dims m.
Proof.
  unfold advance. apply (for_loop_invariant (fun x => dims x = dims m)); [done|].
  intros i x _ Hx. rewrite update_column_dims. exact Hx.
Qed.

Lemma update_dims m : dims (update m) = dims m.
Proof. unfold update. rewrite advance_dims. apply fade_frame. Qed.

Lemma iter_update_dims n m : dims (Nat.iter n update m) = dims m.
Proof.
  induction n as [|n IH]; [done|].
  rewrite Nat.iter_succ, update_dims. exact IH.
Qed.

(** ** Construction *)

Lemma construct_fields seed w :
  let nw := Z.to_nat (Z.of_N (ws_col w)) in
  let nh := Z.to_nat (Z.of_N (ws_row w)) in
  construct seed w
  = for_loop 0 (Z.of_N (ws_col w)) init_column
      (mkMatrix (Z.of_N (ws_col w)) (Z.of_N (ws_row w))
         (replicate nh (replicate nw space)) (replicate nh (replicate nw 0))
         (replicate nw 0) (replicate nw 0) (replicate nw 0) (replicate nw 0)
         (seed_engine seed)).
Proof.
  cbn. unfold construct, initializeMatrix, getTerminalSize, fresh_object.
  cbn. rewrite !resize_nil. reflexivity.
Qed.

Lemma init_column_frame i m :
  dims (init_column i m) = dims m /\ grids (init_column i m) = grids m.
Proof.
  unfold init_column, spawn_row.
  destruct (line_70 i);
    step_draw x1 m1 Hx1; step_draw x2 m2 Hx2;
    step_draw sp m3 Hsp; step_draw len m4 Hl;
    rewrite dims_set_counters, dims_set_lengths; rewrite Hm2, dims_set_rng;
    rewrite dims_set_speeds; rewrite Hm1, dims_set_rng, dims_set_drops;
    rewrite Hm0, Hm; done.
Qed.

Lemma construct_frame seed w :
  let nw := Z.to_nat (Z.of_N (ws_col w)) in
  let nh := Z.to_nat (Z.of_N (ws_row w)) in
  dims (construct seed w)
  = (Z.of_N (ws_col w), Z.of_N (ws_row w),
     length <$> replicate nh (replicate nw space),
     length <$> replicate nh (replicate nw 0), (nw, nw, nw, nw))
  /\ grids (construct seed w)
     = (replicate nh (replicate nw space), replicate nh (replicate nw 0)).
Proof.
  intros nw nh. rewrite construct_fields.
  match goal with |- context [for_loop 0 ?n init_column ?m0] =>
    assert (H : dims (for_loop 0 n init_column m0) = dims m0 /\
                grids (for_loop 0 n init_column m0) = grids m0);
      [apply (for_loop_invariant
                (fun x => dims x = dims m0 /\ grids x = grids m0)) |]
  end.
  - done.
  - intros i x _ (Hd & Hg). destruct (init_column_frame i x). split; congruence.
  - destruct H as [-> ->]. split; [|reflexivity].
    unfold dims. cbn. by rewrite !length_replicate.
Qed.

Lemma construct_sized seed w : sized (construct seed w).
Proof.
  destruct (construct_frame seed w) as (Hd & _). revert Hd.
  unfold dims. intros [= Hw Hh Hs Hb Hdr Hsp Hl Hc].
  assert (Hrows : forall (A : Type) (g : list (list A)) (x : A) n k,
            length <$> g = length <$> replicate k (replicate n x) ->
            length g = k /\ Forall (fun r => length r = n) g).
  { intros A g x n k Hg. split.
    - rewrite <- (length_fmap length), Hg, length_fmap. apply length_replicate.
    - apply (Forall_fmap length (fun j => j = n)). rewrite Hg.
      apply (Forall_fmap length (fun j => j = n)).
      apply Forall_replicate. cbn. apply length_replicate. }
  apply Hrows in Hs as (? & ?). apply Hrows in Hb as (? & ?).
  split; rewrite ?Hw, ?Hh; try lia; assumption.
Qed.

(** ** Brightness stays inside 0..10 *)

Lemma bright_ok_grids m m' : grids m' = grids m -> bright_ok m -> bright_ok m'.
Proof. unfold grids, bright_ok. intros [= _ ->]. auto. Qed.

Lemma bright_ok_at m row col :
  bright_ok m -> 0 <= brightness_at m row col <= 10.
Proof.
  intros H. unfold brightness_at.
  apply (Forall_grid_get (fun b => 0 <= b <= 10)); [exact H|lia].
Qed.

Lemma brightness_at_put m row col x :
  0 <= row -> 0 <= col -> brightness_at m row col <> 0 ->
  brightness_at (put_brightness row col x m) row col = x.
Proof.
  intros Hr Hc Hb. unfold brightness_at, put_brightness. cbn.
  rewrite grid_get_set by assumption.
  rewrite decide_True; [reflexivity|].
  split_and!; [reflexivity..|]. by apply (grid_get_Some 0).
Qed.

Lemma fade_cell_bright_ok row col m :
  0 <= row -> 0 <= col -> bright_ok m -> bright_ok (fade_cell row col m).
Proof.
  intros Hr Hc Hm. unfold fade_cell.
  destruct (Z.ltb_spec 0 (brightness_at m row col)) as [Hpos|]; [|exact Hm].
  pose proof (bright_ok_at m row col Hm) as Hb.
  rewrite brightness_at_put by lia.
  destruct (Z.leb_spec (brightness_at m row col - 3) 0) as [Hle|Hgt];
    unfold bright_ok, put_brightness, put_screen; cbn.
  - rewrite grid_set_twice. apply Forall_grid_set; [exact Hm|lia].
  - apply Forall_grid_set; [exact Hm|lia].
Qed.

Lemma fade_bright_ok m : bright_ok m -> bright_ok (fade m).
Proof.
  intros Hm. unfold fade. apply (for_loop_invariant bright_ok); [exact Hm|].
  intros row x Hrow Hx. apply (for_loop_invariant bright_ok); [exact Hx|].
  intros col y Hcol Hy. apply fade_cell_bright_ok; [lia..|exact Hy].
Qed.

(** What one step of the fade loops does to the brightness read at any
    cell: three less, not below 0, at its own cell when that was lit. *)
Lemma fade_cell_at row col m r c :
  0 <= row -> 0 <= col -> 0 <= r -> 0 <= c ->
  brightness_at (fade_cell row col m) r c
  = if decide (r = row /\ c = col /\ 0 < brightness_at m r c)
    then Z.max 0 (brightness_at m r c - 3)
    else brightness_at m r c.
Proof.
  intros Hr Hc Hr' Hc'. unfold fade_cell.
  destruct (Z.ltb_spec 0 (brightness_at m row col)) as [Hpos|Hdark].
  - rewrite brightness_at_put by lia.
    assert (Hcell : is_Some (brightness m !! Z.to_nat row
                             ≫= fun x => x !! Z.to_nat col)).
    { apply (grid_get_Some 0). unfold brightness_at in Hpos. lia. }
    destruct (decide (r = row /\ c = col)) as [[-> ->]|Hne].
    + rewrite decide_True by done.
      destruct (Z.leb_spec (brightness_at m row col - 3) 0) as [Hle|Hgt].
      * unfold brightness_at at 1, put_screen, put_brightness. cbn.
        rewrite grid_set_twice, grid_get_set by lia.
        rewrite decide_True by done. lia.
      * rewrite brightness_at_put by lia. lia.
    + rewrite decide_False by tauto.
      destruct (Z.leb_spec (brightness_at m row col - 3) 0) as [Hle|Hgt];
        unfold brightness_at, put_screen, put_brightness; cbn;
        rewrite ?grid_set_twice, grid_get_set by lia;
        rewrite decide_False by tauto; reflexivity.
  - rewrite decide_False; [reflexivity|].
    intros (-> & -> & Hpos). lia.
Qed.

(** The fade pass, cell by cell: every cell of the visible area loses 3,
    stopping at 0. *)
Lemma fade_at m row col :
  bright_ok m -> 0 <= row < height m -> 0 <= col < width m ->
  brightness_at (fade m) row col = Z.max 0 (brightness_at m row col - 3).
Proof.
  intros Hok Hrow Hcol.
  pose proof (bright_ok_at m row col Hok) as Hb.
  set (b0 := brightness_at m row col) in *.
  set (done_before := fun i j : Z => row < i \/ (row = i /\ col < j)).
  set (Inv := fun (i j : Z) (x : Matrix) =>
                dims x = dims m /\
                (done_before i j -> brightness_at x row col = Z.max 0 (b0 - 3)) /\
                (~ done_before i j -> brightness_at x row col = b0)).
  assert (Hrows : Inv (height m) 0 (fade m)).
  { unfold fade.
    apply (for_loop_invariant_at (fun i x => Inv i 0 x)); [lia| |].
    - unfold Inv, done_before. split_and!; [reflexivity|lia|reflexivity].
    - intros i x Hi Hx. pose proof Hx as (Hxd & _).
      assert (Hcols : Inv i (width m) (for_loop 0 (width x)
                                         (fun col0 y => fade_cell i col0 y) x)).
      { rewrite (dims_width _ _ Hxd).
        apply (for_loop_invariant_at (fun j y => Inv i j y)); [lia|exact Hx|].
        - intros j y Hj (Hyd & Hdone & Htodo).
          destruct (fade_cell_frame i j y) as (Hfd & _).
          unfold Inv. split; [congruence|].
          rewrite fade_cell_at by lia. unfold done_before in *.
          split; intros Hcase.
          + case_decide as Hcell.
            * destruct Hcell as (-> & -> & _). rewrite Htodo by lia. reflexivity.
            * destruct (decide (row = i /\ col = j)) as [[-> ->]|Hne].
              -- rewrite Htodo in Hcell |- * by lia. lia.
              -- apply Hdone. lia.
          + case_decide as Hcell; [|apply Htodo; lia].
            destruct Hcell as (-> & -> & _). lia. }
      destruct Hcols as (Hd & Hdone & Htodo). unfold Inv, done_before in *.
      split_and!; [exact Hd| |]; intros Hcase; [apply Hdone|apply Htodo]; lia. }
  destruct Hrows as (_ & Hdone & _). apply Hdone. unfold done_before. lia.
Qed.

Lemma draw_head_bright_ok col m : bright_ok m -> bright_ok (draw_head col m).
Proof.
  intros Hm. unfold draw_head. destruct (_ && _); [|exact Hm].
  step_draw k m' Hk. unfold bright_ok, put_brightness, put_screen. cbn.
  apply Forall_grid_set; [|lia]. rewrite Hm0. exact Hm.
Qed.

Lemma tail_step_bright_ok col i m :
  0 <= i -> bright_ok m -> bright_ok (tail_step col i m).
Proof.
  intros Hi Hm. unfold tail_step. destruct (_ && _); [|exact Hm].
  destruct (_ <? _); [|exact Hm].
  step_draw k m' Hk. unfold bright_ok, put_brightness, put_screen. cbn.
  apply Forall_grid_set; [|lia]. rewrite Hm0. exact Hm.
Qed.

Lemma draw_tail_bright_ok col m : bright_ok m -> bright_ok (draw_tail col m).
Proof.
  intros Hm. unfold draw_tail. apply (for_loop_invariant bright_ok); [exact Hm|].
  intros i x Hi Hx. apply tail_step_bright_ok; [lia|exact Hx].
Qed.

Lemma update_column_bright_ok col m :
  bright_ok m -> bright_ok (update_column col m).
Proof.
  intros Hm.
  assert (Hc : bright_ok (count_tick col m))
    by (eapply bright_ok_grids; [apply count_tick_frame|exact Hm]).
  unfold update_column. destruct (_ <=? _); [|exact Hc].
  unfold advance_column.
  eapply bright_ok_grids; [apply respawn_frame|].
  apply draw_tail_bright_ok, draw_head_bright_ok.
  eapply bright_ok_grids; [apply move_head_frame|exact Hc].
Qed.

Lemma advance_bright_ok m : bright_ok m -> bright_ok (advance m).
Proof.
  intros Hm. unfold advance. apply (for_loop_invariant bright_ok); [exact Hm|].
  intros col x _ Hx. apply update_column_bright_ok. exact Hx.
Qed.

Lemma construct_bright_ok seed w : bright_ok (construct seed w).
Proof.
  destruct (construct_frame seed w) as (_ & Hg). revert Hg.
  unfold grids, bright_ok. intros [= _ ->].
  apply Forall_replicate, Forall_replicate. lia.
Qed.

Lemma simulate_bright_ok seed w n : bright_ok (simulate seed w n).
Proof.
  unfold simulate. induction n as [|n IH]; [apply construct_bright_ok|].
  rewrite Nat.iter_succ. apply advance_bright_ok, fade_bright_ok, IH.
Qed.

(** ** A glyph is blank exactly where the brightness is 0 *)

Lemma glyph_ok_grids m m' : grids m' = grids m -> glyph_ok m -> glyph_ok m'.
Proof. unfold grids, glyph_ok. intros [= -> ->]. auto. Qed.

Lemma glyph_ok_at m row col :
  glyph_ok m -> screen_at m row col = space <-> brightness_at m row col = 0.
Proof.
  intros H. unfold screen_at, brightness_at.
  apply (Forall2_grid_get blank_iff_dark); [exact H|done].
Qed.

Lemma grid_set_same {A : Type} (d : A) (g : list (list A)) row col :
  grid_set g row col (grid_get d g row col) = g \/
  (g !! Z.to_nat row ≫= fun r => r !! Z.to_nat col) = None.
Proof.
  unfold grid_set, grid_get.
  destruct (g !! Z.to_nat row) as [r|] eqn:Hr; cbn; [|by right].
  destruct (r !! Z.to_nat col) as [x|] eqn:Hx; cbn; [left|by right].
  apply list_eq. intros i. rewrite list_lookup_alter.
  destruct (decide (Z.to_nat row = i)) as [<-|]; [|done].
  rewrite Hr. cbn. by rewrite list_insert_id.
Qed.

(** A write of a glyph with a positive brightness, as the head and the tail
    do it. *)
Lemma put_lit_glyph_ok row col c b m :
  c <> space -> b <> 0 -> glyph_ok m ->
  glyph_ok (put_brightness row col b (put_screen row col c m)).
Proof.
  intros Hc Hb Hm. unfold glyph_ok, put_brightness, put_screen. cbn.
  apply Forall2_grid_set; [exact Hm|]. split; intros; congruence.
Qed.

Lemma fade_cell_glyph_ok row col m :
  0 <= row -> 0 <= col -> glyph_ok m -> glyph_ok (fade_cell row col m).
Proof.
  intros Hr Hc Hm. unfold fade_cell.
  destruct (Z.ltb_spec 0 (brightness_at m row col)) as [Hpos|]; [|exact Hm].
  rewrite brightness_at_put by lia.
  destruct (Z.leb_spec (brightness_at m row col - 3) 0) as [Hle|Hgt];
    unfold glyph_ok, put_brightness, put_screen; cbn.
  - rewrite grid_set_twice. apply Forall2_grid_set; [exact Hm|done].
  - destruct (grid_set_same space (screen m) row col) as [Hsame|Hnone].
    + rewrite <- Hsame at 1. apply Forall2_grid_set; [exact Hm|].
      pose proof (glyph_ok_at m row col Hm) as Hat.
      unfold screen_at in Hat. split; [|lia].
      intros Hsp. apply Hat in Hsp. lia.
    + (* the cell exists in the brightness grid, hence in the screen grid *)
      exfalso.
      assert (Hcell : is_Some (brightness m !! Z.to_nat row
                               ≫= fun x => x !! Z.to_nat col)).
      { apply (grid_get_Some 0). unfold brightness_at in Hpos. lia. }
      destruct Hcell as [b Hb].
      destruct (brightness m !! Z.to_nat row) as [rb|] eqn:Hrb; [|done].
      destruct (Forall2_lookup_r _ _ _ _ _ Hm Hrb) as (rs & Hrs & Hrow).
      rewrite Hrs in Hnone. cbn in Hnone, Hb.
      destruct (Forall2_lookup_r _ _ _ _ _ Hrow Hb) as (x & Hx & _).
      congruence.
Qed.

Lemma fade_glyph_ok m : glyph_ok m -> glyph_ok (fade m).
Proof.
  intros Hm. unfold fade. apply (for_loop_invariant glyph_ok); [exact Hm|].
  intros row x Hrow Hx. apply (for_loop_invariant glyph_ok); [exact Hx|].
  intros col y Hcol Hy. apply fade_cell_glyph_ok; [lia..|exact Hy].
Qed.

Lemma draw_head_glyph_ok col m : glyph_ok m -> glyph_ok (draw_head col m).
Proof.
  intros Hm. unfold draw_head. destruct (_ && _); [|exact Hm].
  step_draw k m' Hk.
  apply put_lit_glyph_ok; [apply matrix_char_not_space|lia|].
  rewrite Hm0. exact Hm.
Qed.

Lemma tail_step_glyph_ok col i m : glyph_ok m -> glyph_ok (tail_step col i m).
Proof.
  intros Hm. unfold tail_step. destruct (_ && _); [|exact Hm].
  destruct (_ <? _); [|exact Hm].
  step_draw k m' Hk.
  apply put_lit_glyph_ok; [apply matrix_char_not_space|lia|].
  rewrite Hm0. exact Hm.
Qed.

Lemma draw_tail_glyph_ok col m : glyph_ok m -> glyph_ok (draw_tail col m).
Proof.
  intros Hm. unfold draw_tail. apply (for_loop_invariant glyph_ok); [exact Hm|].
  intros i x _ Hx. apply tail_step_glyph_ok. exact Hx.
Qed.

Lemma update_column_glyph_ok col m :
  glyph_ok m -> glyph_ok (update_column col m).
Proof.
  intros Hm.
  assert (Hc : glyph_ok (count_tick col m))
    by (eapply glyph_ok_grids; [apply count_tick_frame|exact Hm]).
  unfold update_column. destruct (_ <=? _); [|exact Hc].
  unfold advance_column.
  eapply glyph_ok_grids; [apply respawn_frame|].
  apply draw_tail_glyph_ok, draw_head_glyph_ok.
  eapply glyph_ok_grids; [apply move_head_frame|exact Hc].
Qed.

Lemma advance_glyph_ok m : glyph_ok m -> glyph_ok (advance m).
Proof.
  intros Hm. unfold advance. apply (for_loop_invariant glyph_ok); [exact Hm|].
  intros col x _ Hx. apply update_column_glyph_ok. exact Hx.
Qed.

Lemma construct_glyph_ok seed w : glyph_ok (construct seed w).
Proof.
  destruct (construct_frame seed w) as (_ & Hg). revert Hg.
  unfold grids, glyph_ok. intros [= -> ->].
  apply Forall2_replicate, Forall2_replicate. done.
Qed.

Lemma simulate_glyph_ok seed w n : glyph_ok (simulate seed w n).
Proof.
  unfold simulate. induction n as [|n IH]; [apply construct_glyph_ok|].
  rewrite Nat.iter_succ. apply advance_glyph_ok, fade_glyph_ok, IH.
Qed.

(** ** One column through one tick *)

Lemma column_cols m m' col : cols m' = cols m -> column m' col = column m col.
Proof. unfold cols, column. intros [= -> -> -> ->]. reflexivity. Qed.

Lemma sized_column_index m col :
  sized m -> 0 <= col < width m ->
  (Z.to_nat col < length (drops m))%nat /\
  (Z.to_nat col < length (speeds m))%nat /\
  (Z.to_nat col < length (lengths m))%nat /\
  (Z.to_nat col < length (counters m))%nat.
Proof. intros [] Hcol. split_and!; lia. Qed.

Lemma respawn_other j col m :
  0 <= j -> 0 <= col -> j <> col -> column (respawn j m) col = column m col.
Proof.
  intros Hj Hcol Hne. unfold respawn. destruct (_ <? _); [|done].
  step_draw spawn m1 Hs. step_draw sp m2 Hsp. step_draw len m3 Hl.
  subst m3 m2 m1. unfold column. cbn.
  rewrite !vget_vset_other by lia. reflexivity.
Qed.

Lemma update_column_other j col m :
  0 <= j -> 0 <= col -> j <> col ->
  column (update_column j m) col = column m col.
Proof.
  intros Hj Hcol Hne.
  assert (Hct : column (count_tick j m) col = column m col).
  { unfold column, count_tick. cbn. by rewrite vget_vset_other by lia. }
  unfold update_column. destruct (_ <=? _); [|exact Hct].
  unfold advance_column. rewrite respawn_other by lia.
  rewrite (column_cols _ _ _ (proj2 (draw_tail_frame _ _))).
  rewrite (column_cols _ _ _ (proj2 (draw_head_frame _ _))).
  rewrite <- Hct. unfold column, move_head. cbn.
  by rewrite !vget_vset_other by lia.
Qed.

(** The reset, spelled out: one draw for the delay, the old trail length
    subtracted, then the new speed and the new trail length, in this order. *)
Lemma respawn_self col m :
  sized m -> 0 <= col < width m ->
  let c := column m col in
  let d1 := uniform_int 0 50 (rng m) in
  let d2 := uniform_int 1 4 (snd d1) in
  let d3 := uniform_int 7 10 (snd d2) in
  if height m <? headRow c - trailLength c then
    column (respawn col m) col
    = {| headRow := - fst d1 - trailLength c; speed := fst d2;
         trailLength := fst d3; tickCounter := tickCounter c |}
    /\ rng (respawn col m) = snd d3
  else respawn col m = m.
Proof.
  intros Hm Hcol. destruct (sized_column_index m col Hm Hcol) as (?&?&?&?).
  cbn zeta. unfold respawn. cbn [column headRow trailLength].
  destruct (_ <? _); [|done].
  step_draw spawn m1 Hs. step_draw sp m2 Hsp. step_draw len m3 Hl.
  subst m3 m2 m1 spawn sp len. unfold column. cbn.
  rewrite !vget_vset_same by (rewrite ?length_vset; lia).
  done.
Qed.

(** The body of the column loop, seen from its own column: either the
    counter goes up by one and nothing else changes, or the head moves down
    by exactly one row, the counter restarts, and the result is handed to
    the reset test. *)
Lemma update_column_self col m :
  sized m -> 0 <= col < width m ->
  let c := column m col in
  if speed c <=? tickCounter c + 1 then
    exists mid,
      update_column col m = respawn col mid /\
      sized mid /\ dims mid = dims m /\
      column mid col
      = {| headRow := headRow c + 1; speed := speed c;
           trailLength := trailLength c; tickCounter := 0 |}
  else
    column (update_column col m) col
    = {| headRow := headRow c; speed := speed c;
         trailLength := trailLength c; tickCounter := tickCounter c + 1 |}.
Proof.
  intros Hm Hcol. destruct (sized_column_index m col Hm Hcol) as (?&?&?&?).
  cbn zeta. unfold update_column.
  assert (Hct : column (count_tick col m) col
                = {| headRow := headRow (column m col);
                     speed := speed (column m col);
                     trailLength := trailLength (column m col);
                     tickCounter := tickCounter (column m col) + 1 |}).
  { unfold column, count_tick. cbn. by rewrite vget_vset_same by lia. }
  assert (Hsp : vget (speeds (count_tick col m)) col = speed (column m col))
    by reflexivity.
  assert (Hk : vget (counters (count_tick col m)) col
               = tickCounter (column m col) + 1).
  { unfold count_tick. cbn. by rewrite vget_vset_same by lia. }
  rewrite Hsp, Hk. destruct (_ <=? _); [|exact Hct].
  exists (draw_tail col (draw_head col (move_head col (count_tick col m)))).
  assert (Hd : dims (draw_tail col (draw_head col (move_head col (count_tick col m))))
               = dims m).
  { rewrite (proj1 (draw_tail_frame _ _)), (proj1 (draw_head_frame _ _)),
      (proj1 (move_head_frame _ _)). apply count_tick_frame. }
  split_and!; [reflexivity|by eapply sized_dims|exact Hd|].
  rewrite (column_cols _ _ _ (proj2 (draw_tail_frame _ _))).
  rewrite (column_cols _ _ _ (proj2 (draw_head_frame _ _))).
  unfold column, move_head, count_tick. cbn.
  rewrite !vget_vset_same by (rewrite ?length_vset; lia).
  rewrite ?vget_vset_same by (rewrite ?length_vset; lia). reflexivity.
Qed.

(** A whole tick touches column [col] only in the iteration [col] of the
    column loop. *)
Lemma update_column_view col m :
  sized m -> 0 <= col < width m ->
  exists m1,
    sized m1 /\ dims m1 = dims m /\ column m1 col = column m col /\
    column (update m) col = column (update_column col m1) col.
Proof.
  intros Hm Hcol. unfold update, advance.
  destruct (fade_frame m) as (Hfd & Hfc & _).
  rewrite (dims_width _ _ Hfd).
  rewrite (for_loop_split 0 col (width m)) by lia.
  rewrite (for_loop_first col) by lia.
  set (m1 := for_loop 0 col update_column (fade m)).
  assert (H1 : dims m1 = dims m /\ column m1 col = column m col).
  { apply (for_loop_invariant
             (fun x => dims x = dims m /\ column x col = column m col)).
    - split; [exact Hfd|by apply column_cols].
    - intros i x Hi (Hxd & Hxc). rewrite update_column_dims.
      rewrite update_column_other by lia. done. }
  destruct H1 as (H1d & H1c).
  exists m1. split_and!; [by eapply sized_dims|exact H1d|exact H1c|].
  apply (for_loop_invariant
           (fun x => column x col = column (update_column col m1) col));
    [reflexivity|].
  intros i x Hi Hx. rewrite update_column_other by lia. exact Hx.
Qed.

(** One tick, seen from one column. *)
Lemma tick_column col m :
  sized m -> 0 <= col < width m ->
  let c := column m col in
  (tickCounter c + 1 < speed c ->
     column (update m) col
     = {| headRow := headRow c; speed := speed c;
          trailLength := trailLength c; tickCounter := tickCounter c + 1 |}) /\
  (speed c <= tickCounter c + 1 ->
     exists mid,
       sized mid /\ width mid = width m /\ height mid = height m /\
       column mid col
       = {| headRow := headRow c + 1; speed := speed c;
            trailLength := trailLength c; tickCounter := 0 |} /\
       column (update m) col = column (respawn col mid) col).
Proof.
  intros Hm Hcol c.
  destruct (update_column_view col m Hm Hcol) as (m1 & Hs1 & Hd1 & Hc1 & Hup).
  assert (Hcol1 : 0 <= col < width m1) by (rewrite (dims_width _ _ Hd1); exact Hcol).
  pose proof (update_column_self col m1 Hs1 Hcol1) as Hself.
  cbn zeta in Hself. rewrite Hc1 in Hself. fold c in Hself.
  split; intros Hcmp.
  - destruct (Z.leb_spec (speed c) (tickCounter c + 1)); [lia|].
    rewrite Hup. exact Hself.
  - destruct (Z.leb_spec (speed c) (tickCounter c + 1)); [|lia].
    destruct Hself as (mid & Heq & Hsm & Hdm & Hcm).
    exists mid. split_and!; [exact Hsm| | |exact Hcm|].
    + rewrite (dims_width _ _ Hdm). by apply dims_width.
    + rewrite (dims_height _ _ Hdm). by apply dims_height.
    + rewrite Hup, Heq. reflexivity.
Qed.

(** The same, with the reset test resolved. *)
Lemma tick_column_cases col m :
  sized m -> 0 <= col < width m ->
  let c := column m col in
  (tickCounter c + 1 < speed c ->
     column (update m) col
     = {| headRow := headRow c; speed := speed c;
          trailLength := trailLength c; tickCounter := tickCounter c + 1 |}) /\
  (speed c <= tickCounter c + 1 ->
   headRow c + 1 - trailLength c <= height m ->
     column (update m) col
     = {| headRow := headRow c + 1; speed := speed c;
          trailLength := trailLength c; tickCounter := 0 |}) /\
  (speed c <= tickCounter c + 1 ->
   height m < headRow c + 1 - trailLength c ->
     exists spawn sp len,
       0 <= spawn <= 50 /\ 1 <= sp <= 4 /\ 7 <= len <= 10 /\
       column (update m) col
       = {| headRow := - spawn - trailLength c; speed := sp;
            trailLength := len; tickCounter := 0 |}).
Proof.
  intros Hm Hcol c. destruct (tick_column col m Hm Hcol) as (Hrest & Hadv).
  fold c in Hrest, Hadv. split_and!; [exact Hrest|..]; intros Hcmp Hpos;
    destruct (Hadv Hcmp) as (mid & Hsm & Hwm & Hhm & Hcm & Hup);
    assert (Hcolm : 0 <= col < width mid) by lia;
    pose proof (respawn_self col mid Hsm Hcolm) as Hre;
    cbn zeta in Hre; rewrite Hcm, Hhm in Hre; cbn [headRow trailLength tickCounter] in Hre.
  - destruct (Z.ltb_spec (height m) (headRow c + 1 - trailLength c)); [lia|].
    rewrite Hup, Hre. exact Hcm.
  - destruct (Z.ltb_spec (height m) (headRow c + 1 - trailLength c)); [|lia].
    destruct Hre as (Hre & _).
    eexists _, _, _. split_and!; [..|rewrite Hup; exact Hre];
      apply uniform_int_range; lia.
Qed.

(** ** Every column keeps a speed in 1..4, a trail in 7..10 and a counter
    below its speed *)

Lemma init_column_other i col m :
  0 <= i -> 0 <= col -> i <> col -> column (init_column i m) col = column m col.
Proof.
  intros Hi Hcol Hne. unfold init_column, spawn_row.
  destruct (line_70 i);
    step_draw x1 m1 Hx1; step_draw x2 m2 Hx2;
    step_draw sp m3 Hsp; step_draw len m4 Hl;
    subst m4 m3 m2 m1; unfold column; cbn;
    rewrite !vget_vset_other by lia; reflexivity.
Qed.

Lemma init_column_self i m :
  sized m -> 0 <= i < width m ->
  column_ok (column (init_column i m) i) /\
  headRow (column (init_column i m) i) < 0.
Proof.
  intros Hm Hi. destruct (sized_column_index m i Hm Hi) as (?&?&?&?).
  unfold init_column, spawn_row.
  destruct (line_70 i);
    step_draw x1 m1 Hx1; step_draw x2 m2 Hx2;
    step_draw sp m3 Hsp; step_draw len m4 Hl;
    subst m4 m3 m2 m1; unfold column_ok, column; cbn;
    rewrite !vget_vset_same by (rewrite ?length_vset; lia); lia.
Qed.

Lemma construct_columns seed w col :
  0 <= col < width (construct seed w) ->
  column_ok (column (construct seed w) col) /\
  headRow (column (construct seed w) col) < 0.
Proof.
  pose proof (construct_frame seed w) as (Hd & _).
  assert (Hw : width (construct seed w) = Z.of_N (ws_col w))
    by (revert Hd; unfold dims; congruence).
  rewrite Hw. clear Hd Hw. revert col.
  rewrite construct_fields. cbn zeta.
  match goal with |- context [for_loop 0 ?n init_column ?m0] =>
    set (start := m0)
  end.
  assert (Hstart : sized start).
  { split; cbn; rewrite ?length_replicate; try lia;
      apply Forall_replicate, length_replicate. }
  apply (for_loop_invariant_at
           (fun i x => dims x = dims start /\
              forall col, 0 <= col < i ->
                column_ok (column x col) /\ headRow (column x col) < 0)).
  - lia.
  - split; [reflexivity|]. intros col Hcol. lia.
  - intros i x Hi (Hxd & Hx).
    destruct (init_column_frame i x) as (Hid & _).
    split; [congruence|]. intros col Hcol.
    destruct (decide (col = i)) as [->|Hne].
    + apply init_column_self; [by apply (sized_dims start)|].
      rewrite (dims_width _ _ Hxd). exact Hi.
    + rewrite init_column_other by lia. apply Hx. lia.
Qed.

Lemma construct_columns_ok seed w : columns_ok (construct seed w).
Proof. intros col Hcol. by apply construct_columns. Qed.

Lemma construct_on_track seed w : on_track (construct seed w).
Proof.
  intros col Hcol. destruct (construct_columns seed w col Hcol) as ((_ & ? & _) & ?).
  pose proof (sized_height _ (construct_sized seed w)). lia.
Qed.

Lemma update_columns_ok m : sized m -> columns_ok m -> columns_ok (update m).
Proof.
  intros Hm Hok col Hcol.
  rewrite (dims_width _ _ (update_dims m)) in Hcol.
  destruct (Hok col Hcol) as (Hsp & Hlen & Hk).
  destruct (tick_column_cases col m Hm Hcol) as (Hrest & Hmove & Hreset).
  destruct (Z.lt_ge_cases (tickCounter (column m col) + 1) (speed (column m col)))
    as [Hlt|Hge].
  - rewrite (Hrest Hlt). unfold column_ok. cbn [headRow speed trailLength tickCounter]. lia.
  - destruct (Z.le_gt_cases
                (headRow (column m col) + 1 - trailLength (column m col))
                (height m)) as [Hin|Hout].
    + rewrite (Hmove Hge Hin). unfold column_ok. cbn [headRow speed trailLength tickCounter]. lia.
    + destruct (Hreset Hge Hout) as (spawn & sp & len & ? & ? & ? & ->).
      unfold column_ok. cbn [headRow speed trailLength tickCounter]. lia.
Qed.

Lemma update_on_track m :
  sized m -> columns_ok m -> on_track m -> on_track (update m).
Proof.
  intros Hm Hok Htr col Hcol.
  rewrite (dims_width _ _ (update_dims m)) in Hcol.
  rewrite (dims_height _ _ (update_dims m)).
  destruct (Hok col Hcol) as (Hsp & Hlen & Hk).
  specialize (Htr col Hcol).
  destruct (tick_column_cases col m Hm Hcol) as (Hrest & Hmove & Hreset).
  destruct (Z.lt_ge_cases (tickCounter (column m col) + 1) (speed (column m col)))
    as [Hlt|Hge].
  - rewrite (Hrest Hlt). cbn [headRow trailLength]. exact Htr.
  - destruct (Z.le_gt_cases
                (headRow (column m col) + 1 - trailLength (column m col))
                (height m)) as [Hin|Hout].
    + rewrite (Hmove Hge Hin). cbn [headRow trailLength]. exact Hin.
    + destruct (Hreset Hge Hout) as (spawn & sp & len & ? & ? & ? & ->).
      cbn [headRow trailLength]. pose proof (sized_height _ Hm). lia.
Qed.

Lemma simulate_sized seed w n : sized (simulate seed w n).
Proof.
  apply (sized_dims (construct seed w)); [|apply construct_sized].
  apply iter_update_dims.
Qed.

Lemma simulate_columns_ok seed w n : columns_ok (simulate seed w n).
Proof.
  induction n as [|n IH]; [apply construct_columns_ok|].
  unfold simulate. rewrite Nat.iter_succ.
  apply update_columns_ok; [apply simulate_sized|exact IH].
Qed.

Lemma simulate_on_track seed w n : on_track (simulate seed w n).
Proof.
  induction n as [|n IH]; [apply construct_on_track|].
  unfold simulate. rewrite Nat.iter_succ.
  apply update_on_track;
    [apply simulate_sized|apply simulate_columns_ok|exact IH].
Qed.

Lemma simulate_succ seed w n :
  simulate seed w (S n) = update (simulate seed w n).
Proof. unfold simulate. apply Nat.iter_succ. Qed.

(** ** The frame *)

Lemma render_joined m :
  render m
  = cursor_home ++ join_rows newline (map (render_row m) (seqZ 0 (height m))).
Proof.
  unfold render, render_rows.
  rewrite (for_loop_ext _ _ _
             (fun row out => out ++ (render_row m row ++
                if row <? height m - 1 then [newline] else []))).
  - rewrite for_loop_emit. f_equal. rewrite Z.sub_0_r.
    destruct (Z.le_gt_cases (height m) 0) as [Hle|Hgt].
    + rewrite seqZ_nil by lia. reflexivity.
    + pose proof (concat_separated (render_row m) newline
                    (Z.to_nat (height m)) 0) as H.
      rewrite Z2Nat.id in H by lia. exact H.
  - intros row out _. rewrite for_loop_emit, Z.sub_0_r. fold (render_row m row).
    destruct (row <? height m - 1); [|by rewrite app_nil_r].
    by rewrite app_assoc.
Qed.

Lemma render_cell_dark m row col :
  brightness_at m row col = 0 -> render_cell m row col = [space].
Proof.
  intros H. unfold render_cell. rewrite H. cbn. by rewrite andb_false_r.
Qed.

Lemma render_row_blank m row :
  blank m -> 0 <= row < height m ->
  render_row m row = replicate (Z.to_nat (width m)) space.
Proof.
  intros Hb Hrow. unfold render_row.
  assert (Hin : forall col, col ∈ seqZ 0 (width m) -> 0 <= col < width m).
  { intros col Hcol. apply elem_of_seqZ in Hcol. lia. }
  rewrite <- (length_seqZ 0 (width m)).
  induction (seqZ 0 (width m)) as [|col l IH]; [reflexivity|].
  cbn. rewrite render_cell_dark by (apply Hb; [exact Hrow|apply Hin; left]).
  cbn. f_equal. apply IH. intros c Hc. apply Hin. by right.
Qed.

Lemma join_rows_chars (P : ascii -> Prop) sep rows :
  P sep -> Forall (Forall P) rows -> Forall P (join_rows sep rows).
Proof.
  intros Hsep. induction 1 as [|r rest Hr Hrest IH]; [constructor|].
  destruct rest as [|r' rest]; [exact Hr|].
  change (Forall P (r ++ sep :: join_rows sep (r' :: rest))).
  apply Forall_app. split; [exact Hr|]. constructor; [exact Hsep|exact IH].
Qed.

(** ** The tail never dims a cell *)

Lemma cell_exists m row col :
  sized m -> 0 <= row < height m -> 0 <= col < width m ->
  is_Some (screen m !! Z.to_nat row ≫= fun r => r !! Z.to_nat col) /\
  is_Some (brightness m !! Z.to_nat row ≫= fun r => r !! Z.to_nat col).
Proof.
  intros [] Hrow Hcol.
  assert (Hgrid : forall (A : Type) (g : list (list A)),
            length g = Z.to_nat (height m) ->
            Forall (fun r => length r = Z.to_nat (width m)) g ->
            is_Some (g !! Z.to_nat row ≫= fun r => r !! Z.to_nat col)).
  { intros A g Hlen Hrows.
    destruct (lookup_lt_is_Some_2 g (Z.to_nat row)) as [r Hr]; [lia|].
    rewrite Hr. cbn. apply lookup_lt_is_Some_2.
    rewrite (Forall_lookup_1 _ _ _ _ Hrows Hr). lia. }
  split; apply Hgrid; assumption.
Qed.

Lemma tail_step_raises col i m r c :
  0 <= col -> 0 <= r -> 0 <= c ->
  brightness_at m r c <= brightness_at (tail_step col i m) r c.
Proof.
  intros Hcol Hr Hc. unfold tail_step.
  destruct (Z.leb_spec 0 (vget (drops m) col - i)) as [Hlo|]; [|cbn; lia].
  destruct (Z.ltb_spec (vget (drops m) col - i) (height m)) as [Hhi|];
    [|cbn; lia].
  cbn [andb].
  destruct (Z.ltb_spec (brightness_at m (vget (drops m) col - i) col) (10 - i))
    as [Hdim|]; [|lia].
  step_draw k m' Hk. subst m'.
  unfold brightness_at at 2, put_brightness, put_screen. cbn.
  rewrite grid_get_set by lia. case_decide as Hcell; [|reflexivity].
  destruct Hcell as (-> & -> & _). lia.
Qed.

Lemma draw_tail_raises col m r c :
  0 <= col -> 0 <= r -> 0 <= c ->
  brightness_at m r c <= brightness_at (draw_tail col m) r c.
Proof.
  intros Hcol Hr Hc. unfold draw_tail.
  apply (for_loop_invariant
           (fun x => brightness_at m r c <= brightness_at x r c)); [lia|].
  intros i x _ Hx. pose proof (tail_step_raises col i x r c Hcol Hr Hc). lia.
Qed.

Lemma put_lit_at row col c b m :
  sized m -> 0 <= row < height m -> 0 <= col < width m ->
  screen_at (put_brightness row col b (put_screen row col c m)) row col = c /\
  brightness_at (put_brightness row col b (put_screen row col c m)) row col = b.
Proof.
  intros Hm Hrow Hcol. destruct (cell_exists m row col Hm Hrow Hcol) as (Hs & Hb).
  unfold screen_at, brightness_at, put_brightness, put_screen. cbn.
  rewrite !grid_get_set by lia. rewrite !decide_True by done. done.
Qed.

Lemma draw_head_raises col m r c :
  bright_ok m -> 0 <= col -> 0 <= r -> 0 <= c ->
  brightness_at m r c <= brightness_at (draw_head col m) r c.
Proof.
  intros Hok Hcol Hr Hc. unfold draw_head.
  destruct (Z.leb_spec 0 (vget (drops m) col)) as [Hlo|]; [|cbn; lia].
  destruct (Z.ltb_spec (vget (drops m) col) (height m)) as [Hhi|]; [|cbn; lia].
  cbn [andb]. step_draw k m' Hk. subst m'.
  unfold brightness_at at 2, put_brightness, put_screen. cbn.
  rewrite grid_get_set by lia. case_decide as Hcell; [|reflexivity].
  apply bright_ok_at, Hok.
Qed.

(** What the head writes, when its row is on the screen. *)
Lemma draw_head_writes col m :
  sized m -> 0 <= col < width m ->
  let head := headRow (column m col) in
  0 <= head < height m ->
  let d := uniform_int 0 (matrix_chars_length - 1) (rng m) in
  brightness_at (draw_head col m) head col = 10 /\
  screen_at (draw_head col m) head col = matrix_char (fst d) /\
  rng (draw_head col m) = snd d /\
  0 <= fst d < matrix_chars_length.
Proof.
  intros Hm Hcol head Hrow d.
  assert (Hstep : draw_head col m
                  = put_brightness head col 10
                      (put_screen head col (matrix_char (fst d))
                         (set_rng (snd d) m))).
  { assert (Hrow' : 0 <= vget (drops m) col < height m) by exact Hrow.
    unfold draw_head, draw, d, head, column. cbn [headRow fst snd char_dist].
    destruct (Z.leb_spec 0 (vget (drops m) col)); [|lia].
    destruct (Z.ltb_spec (vget (drops m) col) (height m)); [|lia].
    cbn [andb].
    destruct (uniform_int 0 (matrix_chars_length - 1) (rng m)). reflexivity. }
  rewrite Hstep.
  destruct (put_lit_at head col (matrix_char (fst d)) 10 (set_rng (snd d) m))
    as (Hs & Hb); [by apply (sized_dims m)|exact Hrow|exact Hcol|].
  split; [exact Hb|]. split; [exact Hs|]. split; [reflexivity|].
  pose proof (uniform_int_range 0 (matrix_chars_length - 1) (rng m)) as Hk.
  fold d in Hk.
  assert (0 <= matrix_chars_length - 1) by (vm_compute; discriminate).
  lia.
Qed.

(** ** The session reaches the states of [simulate] *)

Lemma iter_update_shift n m :
  Nat.iter n update (update m) = update (Nat.iter n update m).
Proof.
  induction n as [|n IH]; [reflexivity|].
  rewrite !Nat.iter_succ, IH. reflexivity.
Qed.


(** The frames are appended to what the stream already holds. *)
Lemma animate_stream n m out :
  snd (animate n m out) = out ++ snd (animate n m []).
Proof.
  revert m out. induction n as [|n IH]; intros m out.
  - cbn. by rewrite app_nil_r.
  - cbn [animate]. rewrite IH, (IH _ ([] ++ _)). cbn [app].
    by rewrite app_assoc.
Qed.

(** ** The exit code *)

(** Whatever [ioctl] returned, a run that gets its memory ends with exit
    code 0 and an empty error stream. *)
Lemma main_exit env :
  memory_ok env = true -> exit_code (main env) = 0 /\ stderr (main env) = [].
Proof. intros H. unfold main, Matrix_ctor. rewrite H. done. Qed.

Lemma main_bad_alloc env :
  memory_ok env = false ->
  exit_code (main env) = 1 /\
  stderr (main env) = text "Error: std::bad_alloc" ++ [newline].
Proof. intros H. unfold main, Matrix_ctor. rewrite H. done. Qed.

Lemma column_eta (c : Column) :
  c = {| headRow := headRow c; speed := speed c;
         trailLength := trailLength c; tickCounter := tickCounter c |}.
Proof. by destruct c. Qed.

(** While the counter has not reached the speed, ticks only count. *)
Lemma resting_ticks m col (j : nat) :
  sized m -> 0 <= col < width m ->
  let c := column m col in
  tickCounter c + Z.of_nat j < speed c ->
  column (Nat.iter j update m) col
  = {| headRow := headRow c; speed := speed c;
       trailLength := trailLength c;
       tickCounter := tickCounter c + Z.of_nat j |}.
Proof.
  intros Hm Hcol c. induction j as [|j IH]; intros Hj.
  - cbn [Nat.iter]. rewrite Z.add_0_r. apply column_eta.
  - rewrite Nat.iter_succ.
    assert (Hs : sized (Nat.iter j update m))
      by (eapply sized_dims; [apply iter_update_dims|exact Hm]).
    assert (Hw : 0 <= col < width (Nat.iter j update m))
      by (rewrite (dims_width _ _ (iter_update_dims j m)); exact Hcol).
    destruct (tick_column_cases col _ Hs Hw) as (Hrest & _).
    rewrite IH in Hrest by lia. cbn [headRow speed trailLength tickCounter] in Hrest.
    rewrite Hrest by lia. f_equal. lia.
Qed.

(** ** Runs *)



(** ** The columns as the constructor leaves them *)

Lemma init_column_values i m :
  sized m -> 0 <= i < width m ->
  let c := column (init_column i m) i in
  -60 <= headRow c <= -7 /\ 1 <= speed c <= 4 /\ 7 <= trailLength c <= 10 /\
  tickCounter c = 0.
Proof.
  intros Hm Hi. destruct (sized_column_index m i Hm Hi) as (?&?&?&?).
  cbn zeta. unfold init_column, spawn_row.
  destruct (line_70 i);
    step_draw x1 m1 Hx1; step_draw x2 m2 Hx2;
    step_draw sp m3 Hsp; step_draw len m4 Hl;
    subst m4 m3 m2 m1; unfold column; cbn;
    rewrite !vget_vset_same by (rewrite ?length_vset; lia); lia.
Qed.

(** What every iteration of the loop at lines 69-74 establishes for its own
    column holds for every column once the constructor returns. *)
Lemma construct_column_property (P : Column -> Prop) seed w col :
  (forall m i, sized m -> 0 <= i < width m -> P (column (init_column i m) i)) ->
  0 <= col < width (construct seed w) ->
  P (column (construct seed w) col).
Proof.
  intros HP.
  pose proof (construct_frame seed w) as (Hd & _).
  assert (Hw : width (construct seed w) = Z.of_N (ws_col w))
    by (revert Hd; unfold dims; congruence).
  rewrite Hw. clear Hd Hw. revert col.
  rewrite construct_fields. cbn zeta.
  match goal with |- context [for_loop 0 ?n init_column ?m0] =>
    set (start := m0)
  end.
  assert (Hstart : sized start).
  { split; cbn; rewrite ?length_replicate; try lia;
      apply Forall_replicate, length_replicate. }
  apply (for_loop_invariant_at
           (fun i x => dims x = dims start /\
              forall col, 0 <= col < i -> P (column x col))).
  - lia.
  - split; [reflexivity|]. intros col Hcol. lia.
  - intros i x Hi (Hxd & Hx).
    destruct (init_column_frame i x) as (Hid & _).
    split; [congruence|]. intros col Hcol.
    destruct (decide (col = i)) as [->|Hne].
    + apply HP; [by apply (sized_dims start)|].
      rewrite (dims_width _ _ Hxd). exact Hi.
    + rewrite init_column_other by lia. apply Hx. lia.
Qed.

(** ** No head row is ever above row -60 *)

Lemma update_head_floor m col :
  sized m -> 0 <= col < width m ->
  trailLength (column m col) <= 10 ->
  -60 <= headRow (column m col) ->
  -60 <= headRow (column (update m) col).
Proof.
  intros Hm Hcol Hlen Hfloor.
  destruct (tick_column_cases col m Hm Hcol) as (Hrest & Hmove & Hreset).
  destruct (Z.lt_ge_cases (tickCounter (column m col) + 1) (speed (column m col)))
    as [Hlt|Hge].
  - rewrite (Hrest Hlt). cbn [headRow]. exact Hfloor.
  - destruct (Z.le_gt_cases
                (headRow (column m col) + 1 - trailLength (column m col))
                (height m)) as [Hin|Hout].
    + rewrite (Hmove Hge Hin). cbn [headRow]. lia.
    + destruct (Hreset Hge Hout) as (spawn & sp & len & ? & ? & ? & ->).
      cbn [headRow]. lia.
Qed.

Lemma simulate_width seed w n : width (simulate seed w n) = Z.of_N (ws_col w).
Proof.
  unfold simulate.
  rewrite (dims_width _ _ (iter_update_dims n (construct seed w))).
  pose proof (construct_frame seed w) as (Hd & _).
  revert Hd. unfold dims. congruence.
Qed.

Lemma simulate_height seed w n : height (simulate seed w n) = Z.of_N (ws_row w).
Proof.
  unfold simulate.
  rewrite (dims_height _ _ (iter_update_dims n (construct seed w))).
  pose proof (construct_frame seed w) as (Hd & _).
  revert Hd. unfold dims. congruence.
Qed.

Lemma simulate_head_floor seed w n col :
  0 <= col < width (simulate seed w n) ->
  -60 <= headRow (column (simulate seed w n) col).
Proof.
  rewrite simulate_width. intros Hcol. induction n as [|n IH].
  - apply (construct_column_property (fun c => -60 <= headRow c)).
    + intros m i Hm Hi. apply (init_column_values i m Hm Hi).
    + change (construct seed w) with (simulate seed w 0).
      rewrite simulate_width. exact Hcol.
  - rewrite simulate_succ.
    assert (Hc : 0 <= col < width (simulate seed w n))
      by (rewrite simulate_width; exact Hcol).
    apply update_head_floor; [apply simulate_sized|exact Hc| |exact IH].
    apply (simulate_columns_ok seed w n col Hc).
Qed.

(** ** A column writes only its own cells *)

Lemma cell_grids m m' row col : grids m' = grids m -> cell m' row col = cell m row col.
Proof.
  unfold grids, cell, screen_at, brightness_at. intros [= -> ->]. reflexivity.
Qed.

Lemma put_lit_other row col c b m r c' :
  0 <= row -> 0 <= col -> 0 <= r -> 0 <= c' -> (r <> row \/ c' <> col) ->
  cell (put_brightness row col b (put_screen row col c m)) r c' = cell m r c'.
Proof.
  intros Hrow Hcol Hr Hc Hne.
  unfold cell, screen_at, brightness_at, put_brightness, put_screen. cbn.
  rewrite !grid_get_set by lia. rewrite !decide_False by tauto. reflexivity.
Qed.

Lemma draw_head_other col m r c :
  0 <= col -> 0 <= r -> 0 <= c ->
  (c <> col \/ r <> headRow (column m col)) ->
  cell (draw_head col m) r c = cell m r c.
Proof.
  intros Hcol Hr Hc Hne. unfold draw_head.
  destruct (Z.leb_spec 0 (vget (drops m) col)) as [Hlo|]; [|reflexivity].
  destruct (_ <? _); [|reflexivity]. cbn [andb].
  step_draw k m' Hk. subst m'.
  rewrite put_lit_other; [reflexivity|lia..|].
  cbn [column headRow] in Hne. tauto.
Qed.

Lemma tail_step_other col i m r c :
  0 <= col -> 0 <= r -> 0 <= c ->
  (c <> col \/ r <> headRow (column m col) - i) ->
  cell (tail_step col i m) r c = cell m r c.
Proof.
  intros Hcol Hr Hc Hne. unfold tail_step.
  destruct (Z.leb_spec 0 (vget (drops m) col - i)) as [Hlo|]; [|reflexivity].
  destruct (_ <? height m); [|reflexivity]. cbn [andb].
  destruct (_ <? _); [|reflexivity].
  step_draw k m' Hk. subst m'.
  rewrite put_lit_other; [reflexivity|lia..|].
  cbn [column headRow] in Hne. tauto.
Qed.

Lemma draw_tail_other_column col m r c :
  0 <= col -> 0 <= r -> 0 <= c -> c <> col ->
  cell (draw_tail col m) r c = cell m r c.
Proof.
  intros Hcol Hr Hc Hne. unfold draw_tail.
  apply (for_loop_invariant (fun x => cell x r c = cell m r c)); [reflexivity|].
  intros i x _ Hx. rewrite tail_step_other by (lia || tauto). exact Hx.
Qed.

Lemma update_column_other_cells j m r c :
  0 <= j -> 0 <= r -> 0 <= c -> c <> j ->
  cell (update_column j m) r c = cell m r c.
Proof.
  intros Hj Hr Hc Hne.
  assert (Hct : cell (count_tick j m) r c = cell m r c)
    by (apply cell_grids, count_tick_frame).
  unfold update_column. destruct (_ <=? _); [|exact Hct].
  unfold advance_column.
  rewrite (cell_grids _ _ _ _ (proj2 (respawn_frame _ _))).
  rewrite draw_tail_other_column by lia.
  rewrite draw_head_other by (lia || tauto).
  rewrite (cell_grids _ _ _ _ (proj1 (proj2 (move_head_frame _ _)))).
  exact Hct.
Qed.

(** A whole tick, seen from the cells of one column: they are what the
    iteration of that column makes of the faded cells. *)
Lemma update_cells_view col m :
  sized m -> 0 <= col < width m ->
  exists m1,
    sized m1 /\ dims m1 = dims m /\ column m1 col = column m col /\
    (forall r, 0 <= r -> cell m1 r col = cell (fade m) r col) /\
    (forall r, 0 <= r ->
       cell (update m) r col = cell (update_column col m1) r col).
Proof.
  intros Hm Hcol. unfold update, advance.
  destruct (fade_frame m) as (Hfd & Hfc & _).
  rewrite (dims_width _ _ Hfd).
  rewrite (for_loop_split 0 col (width m)) by lia.
  rewrite (for_loop_first col) by lia.
  set (m1 := for_loop 0 col update_column (fade m)).
  assert (H1 : dims m1 = dims m /\ column m1 col = column m col /\
               forall r, 0 <= r -> cell m1 r col = cell (fade m) r col).
  { apply (for_loop_invariant
             (fun x => dims x = dims m /\ column x col = column m col /\
                forall r, 0 <= r -> cell x r col = cell (fade m) r col)).
    - split_and!; [exact Hfd|by apply column_cols|reflexivity].
    - intros i x Hi (Hxd & Hxc & Hxg). rewrite update_column_dims.
      rewrite update_column_other by lia. split_and!; [done..|].
      intros r Hr. rewrite update_column_other_cells by lia. by apply Hxg. }
  destruct H1 as (H1d & H1c & H1g).
  exists m1. split_and!; [by eapply sized_dims|exact H1d|exact H1c|exact H1g|].
  intros r Hr.
  apply (for_loop_invariant
           (fun x => cell x r col = cell (update_column col m1) r col));
    [reflexivity|].
  intros i x Hi Hx. rewrite update_column_other_cells by lia. exact Hx.
Qed.

(** ** The trail behind an advancing head *)

Lemma update_column_advancing col m :
  sized m -> 0 <= col < width m ->
  let c := column m col in
  speed c <= tickCounter c + 1 ->
  update_column col m = advance_column col (count_tick col m) /\
  sized (move_head col (count_tick col m)) /\
  dims (move_head col (count_tick col m)) = dims m /\
  grids (move_head col (count_tick col m)) = grids m /\
  column (move_head col (count_tick col m)) col
  = {| headRow := headRow c + 1; speed := speed c;
       trailLength := trailLength c; tickCounter := 0 |}.
Proof.
  intros Hm Hcol c Hadv.
  destruct (sized_column_index m col Hm Hcol) as (?&?&?&?).
  assert (Hd : dims (move_head col (count_tick col m)) = dims m).
  { rewrite (proj1 (move_head_frame _ _)). apply count_tick_frame. }
  split_and!.
  - unfold update_column.
    assert (Hsp : vget (speeds (count_tick col m)) col = speed c) by reflexivity.
    assert (Hk : vget (counters (count_tick col m)) col = tickCounter c + 1).
    { unfold count_tick. cbn. by rewrite vget_vset_same by lia. }
    rewrite Hsp, Hk. destruct (Z.leb_spec (speed c) (tickCounter c + 1)); [|lia].
    reflexivity.
  - by eapply sized_dims.
  - exact Hd.
  - rewrite (proj1 (proj2 (move_head_frame _ _))). apply count_tick_frame.
  - unfold column, move_head, count_tick. cbn.
    rewrite !vget_vset_same by (rewrite ?length_vset; lia).
    rewrite ?vget_vset_same by (rewrite ?length_vset; lia). reflexivity.
Qed.

Lemma tail_step_floor col i m :
  sized m -> 0 <= col < width m ->
  0 <= headRow (column m col) - i < height m ->
  10 - i <= brightness_at (tail_step col i m) (headRow (column m col) - i) col.
Proof.
  intros Hm Hcol Hrow.
  assert (Hrow' : 0 <= vget (drops m) col - i < height m) by exact Hrow.
  unfold tail_step. cbn [column headRow].
  destruct (Z.leb_spec 0 (vget (drops m) col - i)); [|lia].
  destruct (Z.ltb_spec (vget (drops m) col - i) (height m)); [|lia].
  cbn [andb].
  destruct (Z.ltb_spec (brightness_at m (vget (drops m) col - i) col) (10 - i));
    [|lia].
  step_draw k m' Hk. subst m'.
  destruct (put_lit_at (vget (drops m) col - i) col (matrix_char k)
              (Z.max 1 (10 - i))
              (set_rng (snd (uniform_int 0 (matrix_chars_length - 1) (rng m))) m))
    as (_ & Hb); [by apply (sized_dims m)|exact Hrow'|exact Hcol|].
  rewrite Hb. lia.
Qed.

Lemma draw_tail_gradient col m i :
  sized m -> 0 <= col < width m ->
  1 <= i < trailLength (column m col) ->
  0 <= headRow (column m col) - i < height m ->
  10 - i <= brightness_at (draw_tail col m) (headRow (column m col) - i) col.
Proof.
  intros Hm Hcol Hi Hrow. unfold draw_tail.
  set (v := headRow (column m col)) in *.
  rewrite (for_loop_split 1 i) by (cbn [column trailLength] in Hi; lia).
  rewrite (for_loop_first i) by (cbn [column trailLength] in Hi; lia).
  set (x := for_loop 1 i (tail_step col) m).
  assert (Hx : dims x = dims m /\ cols x = cols m).
  { apply (for_loop_invariant (fun y => dims y = dims m /\ cols y = cols m));
      [done|].
    intros j y _ (Hyd & Hyc). destruct (tail_step_frame col j y).
    split; congruence. }
  destruct Hx as (Hxd & Hxc).
  assert (Hxv : headRow (column x col) = v)
    by (rewrite (column_cols _ _ _ Hxc); reflexivity).
  assert (Hstep : 10 - i <= brightness_at (tail_step col i x) (v - i) col).
  { rewrite <- Hxv. apply tail_step_floor.
    - by apply (sized_dims m).
    - rewrite (dims_width _ _ Hxd). exact Hcol.
    - rewrite Hxv, (dims_height _ _ Hxd). exact Hrow. }
  apply (for_loop_invariant
           (fun y => 10 - i <= brightness_at y (v - i) col)); [exact Hstep|].
  intros j y _ Hy.
  pose proof (tail_step_raises col j y (v - i) col). lia.
Qed.

Lemma draw_tail_keeps_head col m :
  0 <= col -> 0 <= headRow (column m col) ->
  cell (draw_tail col m) (headRow (column m col)) col
  = cell m (headRow (column m col)) col.
Proof.
  intros Hcol Hhead. unfold draw_tail.
  set (v := headRow (column m col)) in *.
  apply (for_loop_invariant
           (fun x => cols x = cols m /\ cell x v col = cell m v col)); [done|].
  intros i x Hi (Hxc & Hx). destruct (tail_step_frame col i x) as (_ & Hc).
  split; [congruence|].
  rewrite tail_step_other; [exact Hx|lia..|].
  right. rewrite (column_cols _ _ _ Hxc). fold v. lia.
Qed.

(** ** Heads above the screen draw nothing *)

Lemma fade_blank m : blank m -> fade m = m.
Proof.
  intros Hb. unfold fade.
  apply (for_loop_invariant (fun x => x = m)); [reflexivity|].
  intros row x Hrow ->.
  apply (for_loop_invariant (fun x => x = m)); [reflexivity|].
  intros col x Hcol ->. unfold fade_cell.
  rewrite Hb by assumption. reflexivity.
Qed.

Lemma draw_head_offscreen col m :
  headRow (column m col) < 0 -> draw_head col m = m.
Proof.
  intros Hv. unfold draw_head. cbn [column headRow] in Hv.
  destruct (Z.leb_spec 0 (vget (drops m) col)); [lia|]. reflexivity.
Qed.

Lemma draw_tail_offscreen col m :
  headRow (column m col) < 1 -> draw_tail col m = m.
Proof.
  intros Hv. unfold draw_tail.
  apply (for_loop_invariant (fun x => x = m)); [reflexivity|].
  intros i x Hi ->. unfold tail_step. cbn [column headRow] in Hv.
  destruct (Z.leb_spec 0 (vget (drops m) col - i)); [lia|]. reflexivity.
Qed.

Lemma update_column_offscreen col m :
  sized m -> 0 <= col < width m ->
  headRow (column m col) < -1 ->
  grids (update_column col m) = grids m.
Proof.
  intros Hm Hcol Hv.
  destruct (Z.lt_ge_cases (tickCounter (column m col) + 1) (speed (column m col)))
    as [Hlt|Hge].
  - unfold update_column.
    assert (Hsp : vget (speeds (count_tick col m)) col = speed (column m col))
      by reflexivity.
    assert (Hk : vget (counters (count_tick col m)) col
                 = tickCounter (column m col) + 1).
    { destruct (sized_column_index m col Hm Hcol) as (?&?&?&?).
      unfold count_tick. cbn. by rewrite vget_vset_same by lia. }
    rewrite Hsp, Hk. destruct (Z.leb_spec (speed (column m col))
                                 (tickCounter (column m col) + 1)); [lia|].
    apply count_tick_frame.
  - destruct (update_column_advancing col m Hm Hcol Hge)
      as (-> & _ & _ & Hg & Hc).
    unfold advance_column.
    rewrite (proj2 (respawn_frame _ _)).
    rewrite draw_head_offscreen by (rewrite Hc; cbn [headRow]; lia).
    rewrite draw_tail_offscreen by (rewrite Hc; cbn [headRow]; lia).
    exact Hg.
Qed.

Lemma advance_offscreen m :
  sized m ->
  (forall col, 0 <= col < width m -> headRow (column m col) < -1) ->
  grids (advance m) = grids m.
Proof.
  intros Hm Hheads. unfold advance.
  pose proof (sized_width _ Hm) as Hw.
  assert (H : dims (for_loop 0 (width m) update_column m) = dims m /\
              grids (for_loop 0 (width m) update_column m) = grids m /\
              forall col, width m <= col < width m ->
                column (for_loop 0 (width m) update_column m) col = column m col).
  { apply (for_loop_invariant_at
             (fun i x => dims x = dims m /\ grids x = grids m /\
                forall col, i <= col < width m -> column x col = column m col));
      [exact Hw|done|].
    intros i x Hi (Hxd & Hxg & Hxc).
    split_and!.
    - rewrite update_column_dims. exact Hxd.
    - rewrite update_column_offscreen; [exact Hxg|by apply (sized_dims m)| |].
      + rewrite (dims_width _ _ Hxd). exact Hi.
      + rewrite Hxc by lia. apply Hheads. exact Hi.
    - intros col Hcol. rewrite update_column_other by lia. apply Hxc. lia. }
  apply H.
Qed.

Lemma update_head_step m col :
  sized m -> 0 <= col < width m -> 7 <= trailLength (column m col) ->
  headRow (column (update m) col) <= Z.max (-7) (headRow (column m col) + 1).
Proof.
  intros Hm Hcol Hlen.
  destruct (tick_column_cases col m Hm Hcol) as (Hrest & Hmove & Hreset).
  destruct (Z.lt_ge_cases (tickCounter (column m col) + 1) (speed (column m col)))
    as [Hlt|Hge].
  - rewrite (Hrest Hlt). cbn [headRow]. lia.
  - destruct (Z.le_gt_cases
                (headRow (column m col) + 1 - trailLength (column m col))
                (height m)) as [Hin|Hout].
    + rewrite (Hmove Hge Hin). cbn [headRow]. lia.
    + destruct (Hreset Hge Hout) as (spawn & sp & len & ? & ? & ? & ->).
      cbn [headRow]. lia.
Qed.

Lemma simulate_head_start seed w n col :
  0 <= col < width (simulate seed w n) ->
  headRow (column (simulate seed w n) col) <= -7 + Z.of_nat n.
Proof.
  rewrite simulate_width. intros Hcol. induction n as [|n IH].
  - apply (construct_column_property (fun c => headRow c <= -7 + Z.of_nat 0)).
    + intros m i Hm Hi. pose proof (init_column_values i m Hm Hi). cbn in *. lia.
    + change (construct seed w) with (simulate seed w 0).
      rewrite simulate_width. exact Hcol.
  - rewrite simulate_succ.
    assert (Hc : 0 <= col < width (simulate seed w n))
      by (rewrite simulate_width; exact Hcol).
    pose proof (update_head_step (simulate seed w n) col
                  (simulate_sized seed w n) Hc) as Hstep.
    destruct (simulate_columns_ok seed w n col Hc) as (_ & Hlen & _).
    specialize (Hstep (proj1 Hlen)). lia.
Qed.

Lemma simulate_blank_start seed w n :
  (n < 7)%nat -> grids (simulate seed w n) = grids (construct seed w).
Proof.
  induction n as [|n IH]; intros Hn; [reflexivity|].
  rewrite simulate_succ. unfold update.
  assert (Hg : grids (simulate seed w n) = grids (construct seed w))
    by (apply IH; lia).
  assert (Hblank : blank (simulate seed w n)).
  { intros row col _ _.
    pose proof (construct_frame seed w) as (_ & Hc). rewrite <- Hg in Hc.
    unfold grids in Hc. injection Hc as _ Hb.
    unfold brightness_at. rewrite Hb.
    apply (Forall_grid_get (fun b => b = 0)); [|reflexivity].
    apply Forall_replicate, Forall_replicate. reflexivity. }
  rewrite fade_blank by exact Hblank.
  rewrite advance_offscreen; [exact Hg|apply simulate_sized|].
  intros col Hcol. pose proof (simulate_head_start seed w n col Hcol). lia.
Qed.

(** ** The motion of a drop in closed form *)

Lemma succ_div_mod a s :
  0 < s ->
  (a mod s + 1 < s -> (a + 1) / s = a / s /\ (a + 1) mod s = a mod s + 1) /\
  (s <= a mod s + 1 -> (a + 1) / s = a / s + 1 /\ (a + 1) mod s = 0).
Proof.
  intros Hs. pose proof (Z.div_mod a s ltac:(lia)) as Ha.
  pose proof (Z.mod_pos_bound a s Hs) as Hr.
  split; intros Hcase.
  - assert (H : a + 1 = s * (a / s) + (a mod s + 1)) by lia.
    split; [symmetry; eapply Z.div_unique_pos|symmetry; eapply Z.mod_unique_pos];
      try exact H; lia.
  - assert (H : a + 1 = s * (a / s + 1) + 0) by lia.
    split; [symmetry; eapply Z.div_unique_pos|symmetry; eapply Z.mod_unique_pos];
      try exact H; lia.
Qed.

Lemma div_mod_last q s :
  0 < s -> (q * s + (s - 1)) / s = q /\ (q * s + (s - 1)) mod s = s - 1.
Proof.
  intros Hs.
  assert (H : q * s + (s - 1) = s * q + (s - 1)) by lia.
  split; [symmetry; eapply Z.div_unique_pos|symmetry; eapply Z.mod_unique_pos];
    try exact H; lia.
Qed.

(** While the trail has not left the screen, the counter counts modulo the
    speed and the head moves down one row each time it wraps. *)
Lemma column_motion_steps m col (t : nat) :
  sized m -> 0 <= col < width m ->
  let c := column m col in
  1 <= speed c -> 0 <= tickCounter c < speed c ->
  headRow c + (tickCounter c + Z.of_nat t) / speed c - trailLength c
  <= height m ->
  column (Nat.iter t update m) col
  = {| headRow := headRow c + (tickCounter c + Z.of_nat t) / speed c;
       speed := speed c;
       trailLength := trailLength c;
       tickCounter := (tickCounter c + Z.of_nat t) mod speed c |}.
Proof.
  intros Hm Hcol c Hs Hk. induction t as [|t IH]; intros Hfit.
  - cbn [Nat.iter]. rewrite Z.add_0_r.
    rewrite Z.div_small, Z.mod_small by lia. rewrite Z.add_0_r.
    apply column_eta.
  - rewrite Nat.iter_succ.
    set (a := tickCounter c + Z.of_nat t) in *.
    replace (tickCounter c + Z.of_nat (S t)) with (a + 1) in * by lia.
    destruct (succ_div_mod a (speed c) ltac:(lia)) as (Hrest & Hwrap).
    pose proof (Z.mod_pos_bound a (speed c) ltac:(lia)) as Hr.
    assert (Hmono : a / speed c <= (a + 1) / speed c)
      by (apply Z.div_le_mono; lia).
    specialize (IH ltac:(lia)).
    set (m' := Nat.iter t update m) in *.
    assert (Hs' : sized m')
      by (eapply sized_dims; [apply iter_update_dims|exact Hm]).
    assert (Hw' : 0 <= col < width m')
      by (unfold m'; rewrite (dims_width _ _ (iter_update_dims t m)); exact Hcol).
    assert (Hh' : height m' = height m) by apply dims_height, iter_update_dims.
    destruct (tick_column_cases col m' Hs' Hw') as (Hr' & Hmove & _).
    rewrite IH in Hr', Hmove.
    cbn [headRow speed trailLength tickCounter] in Hr', Hmove.
    destruct (Z.lt_ge_cases (a mod speed c + 1) (speed c)) as [Hlt|Hge].
    + destruct (Hrest Hlt) as (-> & ->). apply Hr'. exact Hlt.
    + destruct (Hwrap ltac:(lia)) as (Hq & Hz). rewrite Hq, Hz in *.
      rewrite Hmove by lia. f_equal. lia.
Qed.

(** What an advancing tick leaves in the cells of its column. *)
Lemma advancing_tick_cells m col :
  sized m -> 0 <= col < width m ->
  let c := column m col in
  speed c <= tickCounter c + 1 ->
  let v := headRow c + 1 in
  (0 <= v < height m ->
     brightness_at (update m) v col = 10 /\
     exists k, 0 <= k < matrix_chars_length /\
               screen_at (update m) v col = matrix_char k) /\
  (forall i, 1 <= i < trailLength c -> 0 <= v - i < height m ->
     10 - i <= brightness_at (update m) (v - i) col).
Proof.
  intros Hm Hcol c Hadv v.
  destruct (update_cells_view col m Hm Hcol) as (m1 & Hs1 & Hd1 & Hc1 & _ & Hup).
  assert (Hcol1 : 0 <= col < width m1)
    by (rewrite (dims_width _ _ Hd1); exact Hcol).
  destruct (update_column_advancing col m1 Hs1 Hcol1) as (Hstep & Hsx & Hdx & _ & Hcx).
  { rewrite Hc1. exact Hadv. }
  rewrite Hc1 in Hcx. fold c v in Hcx.
  set (x := move_head col (count_tick col m1)) in *.
  assert (Hhx : height x = height m)
    by (rewrite (dims_height _ _ Hdx); by apply dims_height).
  assert (Hwx : 0 <= col < width x)
    by (rewrite (dims_width _ _ Hdx); exact Hcol1).
  assert (Hvx : headRow (column x col) = v) by (rewrite Hcx; reflexivity).
  assert (Hcell : forall r, 0 <= r ->
            cell (update m) r col = cell (draw_tail col (draw_head col x)) r col).
  { intros r Hr. rewrite (Hup r Hr), Hstep. unfold advance_column. fold x.
    apply cell_grids, respawn_frame. }
  destruct (draw_head_frame col x) as (Hdh & Hch).
  assert (Hvy : headRow (column (draw_head col x) col) = v)
    by (rewrite (column_cols _ _ _ Hch); exact Hvx).
  split.
  - intros Hv.
    pose proof (Hcell v (proj1 Hv)) as Hc.
    pose proof (draw_tail_keeps_head col (draw_head col x)) as Hkeep.
    rewrite Hvy in Hkeep. rewrite Hkeep in Hc by lia.
    unfold cell in Hc. injection Hc as Hs Hb.
    destruct (draw_head_writes col x Hsx Hwx) as (Hb10 & Hglyph & _ & Hk).
    { rewrite Hvx, Hhx. exact Hv. }
    rewrite Hvx in Hb10, Hglyph. rewrite Hb, Hs. split; [exact Hb10|].
    eexists. split; [exact Hk|exact Hglyph].
  - intros i Hi Hrow.
    pose proof (Hcell (v - i) (proj1 Hrow)) as Hc.
    unfold cell in Hc. injection Hc as _ Hb. rewrite Hb. rewrite <- Hvy.
    apply draw_tail_gradient.
    + by apply (sized_dims x).
    + rewrite (dims_width _ _ Hdh). exact Hwx.
    + rewrite (column_cols _ _ _ Hch), Hcx. exact Hi.
    + rewrite Hvy, (dims_height _ _ Hdh), Hhx. exact Hrow.
Qed.

(** ** The screen holds spaces and bytes of the symbol string *)

Lemma matrix_char_plain k : matrix_char k <> newline /\ matrix_char k <> esc.
Proof.
  unfold matrix_char.
  destruct (String.get (Z.to_nat k) matrix_chars) as [c|] eqn:Hc; cbn.
  - apply get_in_string in Hc.
    assert (Hall : List.forallb
                     (fun a => negb (Ascii.eqb a newline) && negb (Ascii.eqb a esc))
                     (list_ascii_of_string matrix_chars) = true)
      by (vm_compute; reflexivity).
    rewrite List.forallb_forall in Hall. specialize (Hall c Hc).
    apply andb_prop in Hall as [Hn He].
    split; intros ->; rewrite Ascii.eqb_refl in *; discriminate.
  - split; intros H; discriminate H.
Qed.

Lemma symbol_plain c : symbol c -> c <> newline /\ c <> esc.
Proof.
  intros [-> | (k & _ & ->)]; [|apply matrix_char_plain].
  split; intros H; discriminate H.
Qed.

Lemma symbols_only_grids m m' :
  grids m' = grids m -> symbols_only m -> symbols_only m'.
Proof. unfold grids, symbols_only. intros [= -> _]. auto. Qed.

Lemma symbols_only_at m row col : symbols_only m -> symbol (screen_at m row col).
Proof.
  intros H. unfold screen_at. apply (Forall_grid_get symbol); [exact H|by left].
Qed.

Lemma put_glyph_symbols_only row col c b m :
  symbol c -> symbols_only m ->
  symbols_only (put_brightness row col b (put_screen row col c m)).
Proof.
  intros Hc Hm. unfold symbols_only, put_brightness, put_screen. cbn.
  apply Forall_grid_set; assumption.
Qed.

Lemma fade_cell_symbols_only row col m :
  symbols_only m -> symbols_only (fade_cell row col m).
Proof.
  intros Hm. unfold fade_cell.
  destruct (0 <? _); [|exact Hm]. destruct (_ <=? 0); [|exact Hm].
  unfold symbols_only, put_brightness, put_screen. cbn.
  apply Forall_grid_set; [exact Hm|by left].
Qed.

Lemma fade_symbols_only m : symbols_only m -> symbols_only (fade m).
Proof.
  intros Hm. unfold fade. apply (for_loop_invariant symbols_only); [exact Hm|].
  intros row x Hrow Hx. apply (for_loop_invariant symbols_only); [exact Hx|].
  intros col y Hcol Hy. apply fade_cell_symbols_only. exact Hy.
Qed.

Lemma char_dist_ordered : 0 <= matrix_chars_length - 1.
Proof. vm_compute. intros H. discriminate H. Qed.

Lemma draw_head_symbols_only col m :
  symbols_only m -> symbols_only (draw_head col m).
Proof.
  intros Hm. unfold draw_head. destruct (_ && _); [|exact Hm].
  step_draw k m' Hk. specialize (Hk char_dist_ordered).
  apply put_glyph_symbols_only; [right; eauto|].
  rewrite Hm0. exact Hm.
Qed.

Lemma tail_step_symbols_only col i m :
  symbols_only m -> symbols_only (tail_step col i m).
Proof.
  intros Hm. unfold tail_step. destruct (_ && _); [|exact Hm].
  destruct (_ <? _); [|exact Hm].
  step_draw k m' Hk. specialize (Hk char_dist_ordered).
  apply put_glyph_symbols_only; [right; eauto|].
  rewrite Hm0. exact Hm.
Qed.

Lemma draw_tail_symbols_only col m :
  symbols_only m -> symbols_only (draw_tail col m).
Proof.
  intros Hm. unfold draw_tail.
  apply (for_loop_invariant symbols_only); [exact Hm|].
  intros i x _ Hx. apply tail_step_symbols_only. exact Hx.
Qed.

Lemma update_column_symbols_only col m :
  symbols_only m -> symbols_only (update_column col m).
Proof.
  intros Hm.
  assert (Hc : symbols_only (count_tick col m))
    by (eapply symbols_only_grids; [apply count_tick_frame|exact Hm]).
  unfold update_column. destruct (_ <=? _); [|exact Hc].
  unfold advance_column.
  eapply symbols_only_grids; [apply respawn_frame|].
  apply draw_tail_symbols_only, draw_head_symbols_only.
  eapply symbols_only_grids; [apply move_head_frame|exact Hc].
Qed.

Lemma update_symbols_only m : symbols_only m -> symbols_only (update m).
Proof.
  intros Hm. unfold update, advance.
  apply (for_loop_invariant symbols_only); [by apply fade_symbols_only|].
  intros col x _ Hx. apply update_column_symbols_only. exact Hx.
Qed.

Lemma construct_symbols_only seed w : symbols_only (construct seed w).
Proof.
  destruct (construct_frame seed w) as (_ & Hg). revert Hg.
  unfold grids, symbols_only. intros [= -> _].
  apply Forall_replicate, Forall_replicate. by left.
Qed.

Lemma simulate_symbols_only seed w n : symbols_only (simulate seed w n).
Proof.
  unfold simulate. induction n as [|n IH]; [apply construct_symbols_only|].
  rewrite Nat.iter_succ. apply update_symbols_only, IH.
Qed.

(** ** What a cell paints *)

Lemma render_cell_lit m row col :
  glyph_ok m -> 0 < brightness_at m row col ->
  render_cell m row col
  = (if 5 <? brightness_at m row col then bright_green else dim_green)
    ++ [screen_at m row col] ++ color_reset.
Proof.
  intros Hg Hb. unfold render_cell, setGreenText, resetColor.
  pose proof (glyph_ok_at m row col Hg) as Hat.
  destruct (Ascii.eqb_spec (screen_at m row col) space) as [Hsp|_].
  - apply Hat in Hsp. lia.
  - destruct (Z.ltb_spec 0 (brightness_at m row col)); [reflexivity|lia].
Qed.

(** ** Newlines of a frame *)

Lemma newlines_app a b : newlines (a ++ b) = (newlines a + newlines b)%nat.
Proof. apply count_occ_app. Qed.

Lemma newlines_none out : Forall (fun c => c <> newline) out -> newlines out = 0%nat.
Proof.
  intros H. apply count_occ_not_In. intros Hin.
  rewrite Forall_forall in H. apply (H newline); [|reflexivity].
  apply list_elem_of_In. exact Hin.
Qed.

Lemma newlines_join rows :
  Forall (Forall (fun c => c <> newline)) rows ->
  newlines (join_rows newline rows) = Nat.pred (length rows).
Proof.
  induction 1 as [|r rest Hr Hrest IH]; [reflexivity|].
  destruct rest as [|r' rest]; [by apply newlines_none|].
  change (newlines (r ++ newline :: join_rows newline (r' :: rest))
          = length (r' :: rest)).
  rewrite newlines_app, (newlines_none r Hr).
  unfold newlines at 1. rewrite count_occ_cons_eq by reflexivity.
  fold (newlines (join_rows newline (r' :: rest))). rewrite IH. reflexivity.
Qed.

Lemma render_cell_no_newline m row col :
  symbols_only m -> Forall (fun c => c <> newline) (render_cell m row col).
Proof.
  intros Hs. unfold render_cell.
  assert (Hsp : space <> newline) by (intros H; discriminate H).
  destruct (_ && _); [|by repeat constructor].
  apply Forall_app. split.
  - unfold setGreenText. destruct (5 <? _);
      repeat constructor; intros H; discriminate H.
  - constructor; [apply symbol_plain, symbols_only_at, Hs|].
    unfold resetColor. repeat constructor; intros H; discriminate H.
Qed.

Lemma render_row_no_newline m row :
  symbols_only m -> Forall (fun c => c <> newline) (render_row m row).
Proof.
  intros Hs. unfold render_row.
  induction (seqZ 0 (width m)) as [|col l IH]; [constructor|].
  cbn. apply Forall_app. split; [by apply render_cell_no_newline|exact IH].
Qed.

(** ** The stream of a session *)

Lemma animate_frames n m out :
  snd (animate n m out)
  = out ++ concat (map (fun k => paint (Nat.iter (S k) update m)) (seq 0 n)).
Proof.
  revert m out. induction n as [|n IH]; intros m out.
  - cbn. by rewrite app_nil_r.
  - cbn [animate]. rewrite IH. cbn [seq map concat].
    rewrite <- app_assoc. do 3 f_equal.
    rewrite <- seq_shift, map_map. apply map_ext. intros k.
    rewrite iter_update_shift. reflexivity.
Qed.

Lemma inserted_app a b : inserted (a ++ b) = inserted a ++ inserted b.
Proof.
  induction a as [|[bytes| |cmd] a IH]; cbn; [reflexivity| |exact IH..].
  by rewrite IH, app_assoc.
Qed.

Lemma inserted_frames (frame : nat -> list ascii) ks :
  inserted (concat (map (fun k => [Insert (frame k); Flush]) ks))
  = concat (map frame ks).
Proof.
  induction ks as [|k ks IH]; [reflexivity|]. cbn. by rewrite IH.
Qed.

(** ** The fade pass and the glyphs *)

(** What one step of the fade loops does to the glyph read at any cell: a
    space at its own cell when the brightness there was 1, 2 or 3. *)
Lemma fade_cell_glyph_at row col m r c :
  0 <= row -> 0 <= col -> 0 <= r -> 0 <= c ->
  screen_at (fade_cell row col m) r c
  = if decide (r = row /\ c = col /\ 0 < brightness_at m r c <= 3)
    then space else screen_at m r c.
Proof.
  intros Hr Hc Hr' Hc'. unfold fade_cell.
  destruct (Z.ltb_spec 0 (brightness_at m row col)) as [Hpos|Hdark].
  - rewrite brightness_at_put by lia.
    destruct (Z.leb_spec (brightness_at m row col - 3) 0) as [Hle|Hgt].
    + unfold screen_at, put_screen, put_brightness. cbn.
      rewrite grid_get_set by lia.
      destruct (decide (r = row /\ c = col)) as [[-> ->]|Hne].
      * rewrite (decide_True (P := _ /\ _ /\ _ < _ <= _)) by (split_and!; [done..|lia]).
        case_decide as Hcell; [reflexivity|].
        apply grid_get_None. intros Hs. apply Hcell.
        split_and!; [reflexivity..|exact Hs].
      * rewrite !decide_False by tauto. reflexivity.
    + rewrite decide_False; [reflexivity|].
      intros (-> & -> & Hb). lia.
  - rewrite decide_False; [reflexivity|].
    intros (-> & -> & Hb). lia.
Qed.

(** The fade pass, cell by cell: a cell of the visible area whose brightness
    was 1, 2 or 3 loses its glyph, every other cell keeps it. *)
Lemma fade_glyph_at m row col :
  0 <= row < height m -> 0 <= col < width m ->
  screen_at (fade m) row col
  = if decide (0 < brightness_at m row col <= 3) then space
    else screen_at m row col.
Proof.
  intros Hrow Hcol.
  set (b0 := brightness_at m row col).
  set (g0 := screen_at m row col).
  set (g1 := if decide (0 < b0 <= 3) then space else g0).
  set (done_before := fun i j : Z => row < i \/ (row = i /\ col < j)).
  set (Inv := fun (i j : Z) (x : Matrix) =>
                dims x = dims m /\
                (done_before i j -> screen_at x row col = g1) /\
                (~ done_before i j ->
                 screen_at x row col = g0 /\ brightness_at x row col = b0)).
  assert (Hrows : Inv (height m) 0 (fade m)).
  { unfold fade.
    apply (for_loop_invariant_at (fun i x => Inv i 0 x)); [lia| |].
    - unfold Inv, done_before. split_and!; [reflexivity|lia|done].
    - intros i x Hi Hx. pose proof Hx as (Hxd & _).
      assert (Hcols : Inv i (width m) (for_loop 0 (width x)
                                         (fun col0 y => fade_cell i col0 y) x)).
      { rewrite (dims_width _ _ Hxd).
        apply (for_loop_invariant_at (fun j y => Inv i j y)); [lia|exact Hx|].
        - intros j y Hj (Hyd & Hdone & Htodo).
          destruct (fade_cell_frame i j y) as (Hfd & _).
          unfold Inv. split; [congruence|].
          rewrite fade_cell_glyph_at, fade_cell_at by lia.
          unfold done_before in *.
          split; intros Hcase.
          + destruct (decide (row = i /\ col = j)) as [[-> ->]|Hne].
            * destruct Htodo as (Hg & Hb); [lia|]. rewrite Hg, Hb. unfold g1.
              destruct (decide (0 < b0 <= 3)).
              -- rewrite decide_True by done. reflexivity.
              -- rewrite decide_False by tauto. reflexivity.
            * rewrite decide_False by tauto. apply Hdone. lia.
          + destruct Htodo as (Hg & Hb); [lia|].
            rewrite !decide_False by (intros (-> & -> & _); lia). done. }
      destruct Hcols as (Hd & Hdone & Htodo). unfold Inv, done_before in *.
      split_and!; [exact Hd| |]; intros Hcase; [apply Hdone|apply Htodo]; lia. }
  destruct Hrows as (_ & Hdone & _). apply Hdone. unfold done_before. lia.
Qed.

(** ** What the state depends on *)



End Properties.

(** * The grid depends on the engine only through the values drawn

    Two engines, possibly of different make, whose states are related in a
    way that equal requests give equal values and related next states,
    drive the simulation through the same grids and the same columns. *)

Lemma for_loop_related {S1 S2 : Type} (Rel : S1 -> S2 -> Prop) lo hi
      (body1 : Z -> S1 -> S1) (body2 : Z -> S2 -> S2) s1 s2 :
  Rel s1 s2 ->
  (forall i x y, lo <= i < hi -> Rel x y -> Rel (body1 i x) (body2 i y)) ->
  Rel (for_loop lo hi body1 s1) (for_loop lo hi body2 s2).
Proof.
  intros Hs Hbody. unfold for_loop.
  assert (Hin : forall i, i ∈ seqZ lo (hi - lo) -> lo <= i < hi).
  { intros i Hi. apply elem_of_seqZ in Hi. lia. }
  revert s1 s2 Hs Hin.
  induction (seqZ lo (hi - lo)) as [|i l IH]; intros s1 s2 Hs Hin.
  - exact Hs.
  - cbn [fold_left]. apply IH.
    + apply Hbody; [apply Hin; left|exact Hs].
    + intros j Hj. apply Hin. right. exact Hj.
Qed.

Section EngineIndependence.
Context {Ord : EvaluationOrder}.
Variables R1 R2 : RandomSource.
Variable sim : @engine R1 -> @engine R2 -> Prop.
Hypothesis sim_draw :
  forall a b g1 g2,
    sim g1 g2 ->
    fst (uniform_int a b g1) = fst (uniform_int a b g2) /\
    sim (snd (uniform_int a b g1)) (snd (uniform_int a b g2)).

(** A statement that does not draw keeps the two objects in step. *)
Ltac in_step :=
  unfold same_view, put_screen, put_brightness, brightness_at, screen_at in *;
  cbn in *; intuition congruence.

Lemma draw_related dist m1 m2 x1 m1' x2 m2' :
  same_view sim m1 m2 ->
  draw dist m1 = (x1, m1') -> draw dist m2 = (x2, m2') ->
  x1 = x2 /\ same_view sim m1' m2'.
Proof.
  intros Hv. unfold draw.
  destruct (sim_draw (fst dist) (snd dist) (rng m1) (rng m2)) as (Hx & Hg);
    [apply Hv|].
  destruct (uniform_int _ _ (rng m1)) as [y1 g1].
  destruct (uniform_int _ _ (rng m2)) as [y2 g2].
  intros [= <- <-] [= <- <-]. cbn in Hx, Hg. split; [exact Hx|]. in_step.
Qed.

(** Steps through one draw on both sides: [x] is the value drawn, [n1] and
    [n2] the two objects after the draw, [Hn] says that they are in step. *)
Ltac both_draw H x n1 n2 Hn :=
  match goal with
  | |- context [@draw R1 ?d ?m1] =>
      match goal with
      | |- context [@draw R2 d ?m2] =>
          let E1 := fresh "E" in
          let E2 := fresh "E" in
          let x' := fresh "x" in
          destruct (@draw R1 d m1) as [x n1] eqn:E1;
          destruct (@draw R2 d m2) as [x' n2] eqn:E2;
          destruct (draw_related d m1 m2 x n1 x' n2 H E1 E2) as [<- Hn];
          clear E1 E2
      end
  end.

Lemma fade_related m1 m2 : same_view sim m1 m2 -> same_view sim (fade m1) (fade m2).
Proof.
  intros Hv. unfold fade.
  replace (height m2) with (height m1) by apply Hv.
  apply for_loop_related; [exact Hv|]. intros row x y _ Hxy.
  replace (width y) with (width x) by apply Hxy.
  apply for_loop_related; [exact Hxy|]. intros col x' y' _ Hv'.
  unfold fade_cell.
  replace (brightness_at y' row col) with (brightness_at x' row col) by in_step.
  destruct (0 <? _); [|exact Hv'].
  replace (brightness_at (put_brightness row col (brightness_at x' row col - 3) y')
             row col)
    with (brightness_at (put_brightness row col (brightness_at x' row col - 3) x')
            row col) by in_step.
  destruct (_ <=? 0); in_step.
Qed.

Lemma draw_head_related col m1 m2 :
  same_view sim m1 m2 -> same_view sim (draw_head col m1) (draw_head col m2).
Proof.
  intros Hv. unfold draw_head.
  replace (vget (drops m2) col) with (vget (drops m1) col) by in_step.
  replace (height m2) with (height m1) by apply Hv.
  destruct (_ && _); [|exact Hv]. both_draw Hv k n1 n2 Hn. in_step.
Qed.

Lemma tail_step_related col i m1 m2 :
  same_view sim m1 m2 -> same_view sim (tail_step col i m1) (tail_step col i m2).
Proof.
  intros Hv. unfold tail_step.
  replace (vget (drops m2) col) with (vget (drops m1) col) by in_step.
  replace (height m2) with (height m1) by apply Hv.
  destruct (_ && _); [|exact Hv].
  replace (brightness_at m2 (vget (drops m1) col - i) col)
    with (brightness_at m1 (vget (drops m1) col - i) col) by in_step.
  destruct (_ <? _); [|exact Hv]. both_draw Hv k n1 n2 Hn. in_step.
Qed.

Lemma draw_tail_related col m1 m2 :
  same_view sim m1 m2 -> same_view sim (draw_tail col m1) (draw_tail col m2).
Proof.
  intros Hv. unfold draw_tail.
  replace (vget (lengths m2) col) with (vget (lengths m1) col) by in_step.
  apply for_loop_related; [exact Hv|]. intros i x y _. apply tail_step_related.
Qed.

Lemma respawn_related col m1 m2 :
  same_view sim m1 m2 -> same_view sim (respawn col m1) (respawn col m2).
Proof.
  intros Hv. unfold respawn.
  replace (vget (drops m2) col) with (vget (drops m1) col) by in_step.
  replace (vget (lengths m2) col) with (vget (lengths m1) col) by in_step.
  replace (height m2) with (height m1) by apply Hv.
  destruct (_ <? _); [|exact Hv].
  both_draw Hv spawn a1 a2 Ha.
  assert (Hd : same_view sim
                 (set_drops (vset (drops a1) col (- spawn - vget (lengths a1) col)) a1)
                 (set_drops (vset (drops a2) col (- spawn - vget (lengths a2) col)) a2))
    by (clear - Ha; in_step).
  both_draw Hd sp b1 b2 Hb.
  assert (Hs : same_view sim (set_speeds (vset (speeds b1) col sp) b1)
                         (set_speeds (vset (speeds b2) col sp) b2))
    by (clear - Hb; in_step).
  both_draw Hs len c1 c2 Hc. in_step.
Qed.

Lemma update_column_related col m1 m2 :
  same_view sim m1 m2 -> same_view sim (update_column col m1) (update_column col m2).
Proof.
  intros Hv. unfold update_column.
  assert (Hc : same_view sim (count_tick col m1) (count_tick col m2))
    by (unfold count_tick; in_step).
  replace (vget (speeds (count_tick col m2)) col)
    with (vget (speeds (count_tick col m1)) col) by in_step.
  replace (vget (counters (count_tick col m2)) col)
    with (vget (counters (count_tick col m1)) col) by in_step.
  destruct (_ <=? _); [|exact Hc].
  unfold advance_column.
  apply respawn_related, draw_tail_related, draw_head_related.
  unfold move_head. in_step.
Qed.

Lemma update_related m1 m2 : same_view sim m1 m2 -> same_view sim (update m1) (update m2).
Proof.
  intros Hv. unfold update, advance.
  pose proof (fade_related m1 m2 Hv) as Hf.
  replace (width (fade m2)) with (width (fade m1)) by apply Hf.
  apply for_loop_related; [exact Hf|].
  intros col x y _. apply update_column_related.
Qed.

Lemma init_column_related i m1 m2 :
  same_view sim m1 m2 -> same_view sim (init_column i m1) (init_column i m2).
Proof.
  intros Hv. unfold init_column, spawn_row.
  destruct (line_70 i).
  - both_draw Hv spawn a1 a2 Ha. both_draw Ha len0 b1 b2 Hb.
    assert (Hd : same_view sim
                   (set_drops (vset (drops b1) i (- spawn - len0)) b1)
                   (set_drops (vset (drops b2) i (- spawn - len0)) b2))
      by (clear - Hb; in_step).
    both_draw Hd sp c1 c2 Hc.
    assert (Hs : same_view sim (set_speeds (vset (speeds c1) i sp) c1)
                           (set_speeds (vset (speeds c2) i sp) c2))
      by (clear - Hc; in_step).
    both_draw Hs len d1 d2 Hd'. in_step.
  - both_draw Hv len0 a1 a2 Ha. both_draw Ha spawn b1 b2 Hb.
    assert (Hd : same_view sim
                   (set_drops (vset (drops b1) i (- spawn - len0)) b1)
                   (set_drops (vset (drops b2) i (- spawn - len0)) b2))
      by (clear - Hb; in_step).
    both_draw Hd sp c1 c2 Hc.
    assert (Hs : same_view sim (set_speeds (vset (speeds c1) i sp) c1)
                           (set_speeds (vset (speeds c2) i sp) c2))
      by (clear - Hc; in_step).
    both_draw Hs len d1 d2 Hd'. in_step.
Qed.

Lemma construct_related seed1 seed2 w :
  sim (seed_engine seed1) (seed_engine seed2) ->
  same_view sim (construct seed1 w) (construct seed2 w).
Proof.
  intros Hseed. unfold construct, initializeMatrix. cbn zeta.
  apply for_loop_related.
  - unfold same_view, getTerminalSize, fresh_object. cbn. tauto.
  - intros i x y _. apply init_column_related.
Qed.

(** Seeds that start the two engines in related states give, tick for tick,
    the same glyphs, the same brightness and the same columns. *)
Lemma simulate_same_draws seed1 seed2 w n :
  sim (seed_engine seed1) (seed_engine seed2) ->
  same_view sim (simulate seed1 w n) (simulate seed2 w n).
Proof.
  intros Hseed. unfold simulate. induction n as [|n IH].
  - by apply construct_related.
  - rewrite !Nat.iter_succ. by apply update_related.
Qed.

(** Objects in step paint the same frame. *)
Lemma render_related m1 m2 : same_view sim m1 m2 -> render m1 = render m2.
Proof.
  intros (Hw & Hh & Hs & Hb & _). unfold render, render_rows.
  rewrite Hw, Hh. apply for_loop_ext. intros row out _.
  rewrite (for_loop_ext 0 (width m2)
             (fun col out => out ++ render_cell m1 row col)
             (fun col out => out ++ render_cell m2 row col)); [reflexivity|].
  intros col x _. unfold render_cell, screen_at, brightness_at.
  rewrite Hs, Hb. reflexivity.
Qed.

End EngineIndependence.

(** * The claims *)

Section Claims.
Context {R : RandomSource} {Ord : EvaluationOrder}.
Implicit Types m : Matrix.

(** C1.  In every state a run can reach, and for the tick taken from it,
    every cell of the brightness grid holds a value in 0..10 once the fade
    pass has run and again once the column pass has run after it.  The fade
    pass takes 3 from every cell of the visible area and stops at 0. *)
Theorem brightness_bounded_each_pass seed w n :
  let m := simulate seed w n in
  Forall (Forall (fun b => 0 <= b <= 10)) (brightness (fade m)) /\
  Forall (Forall (fun b => 0 <= b <= 10)) (brightness (advance (fade m))) /\
  update m = advance (fade m) /\
  (forall row col,
     0 <= row < height m -> 0 <= col < width m ->
     brightness_at (fade m) row col = Z.max 0 (brightness_at m row col - 3)).
Proof.
  intros m. pose proof (simulate_bright_ok seed w n) as Hm. fold m in Hm.
  split_and!.
  - apply fade_bright_ok, Hm.
  - apply advance_bright_ok, fade_bright_ok, Hm.
  - reflexivity.
  - intros row col Hrow Hcol. apply fade_at; assumption.
Qed.

(** C2.  A column whose speed is [s >= 1] and whose counter is [k < s]
    rests for the next [s - k - 1] ticks: its head row, speed and trail
    length stay put and the counter, one higher per tick, stays below [s].
    Tick [s - k] is the advancing one: it moves the head down by exactly one
    row, sets the counter to 0 and hands the column to the reset test of
    lines 200-204 (which leaves it alone unless the trail has left the
    screen).  From a counter of 0 that is one advance in [s] ticks. *)
Theorem speed_control m col :
  sized m -> 0 <= col < width m ->
  let c := column m col in
  1 <= speed c -> 0 <= tickCounter c < speed c ->
  let wait := Z.to_nat (speed c - tickCounter c) in
  (forall j : nat, (j < wait)%nat ->
     column (Nat.iter j update m) col
     = {| headRow := headRow c; speed := speed c;
          trailLength := trailLength c;
          tickCounter := tickCounter c + Z.of_nat j |} /\
     tickCounter c + Z.of_nat j < speed c) /\
  tickCounter (column (Nat.iter wait update m) col) = 0 /\
  (exists mid,
     height mid = height m /\
     column mid col
     = {| headRow := headRow c + 1; speed := speed c;
          trailLength := trailLength c; tickCounter := 0 |} /\
     column (Nat.iter wait update m) col = column (respawn col mid) col) /\
  (headRow c + 1 - trailLength c <= height m ->
     column (Nat.iter wait update m) col
     = {| headRow := headRow c + 1; speed := speed c;
          trailLength := trailLength c; tickCounter := 0 |}).
Proof.
  intros Hm Hcol c Hs Hk wait.
  assert (Hrest : forall j : nat, (j < wait)%nat ->
            column (Nat.iter j update m) col
            = {| headRow := headRow c; speed := speed c;
                 trailLength := trailLength c;
                 tickCounter := tickCounter c + Z.of_nat j |}).
  { intros j Hj. apply resting_ticks; [exact Hm|exact Hcol|]. fold c. lia. }
  split; [intros j Hj; split; [by apply Hrest|lia]|].
  destruct wait as [|last] eqn:Hwait; [lia|].
  rewrite Nat.iter_succ.
  set (m' := Nat.iter last update m).
  assert (Hs' : sized m')
    by (eapply sized_dims; [apply iter_update_dims|exact Hm]).
  assert (Hw' : 0 <= col < width m')
    by (unfold m'; rewrite (dims_width _ _ (iter_update_dims last m)); exact Hcol).
  assert (Hh' : height m' = height m) by apply dims_height, iter_update_dims.
  assert (Hc' : column m' col
                = {| headRow := headRow c; speed := speed c;
                     trailLength := trailLength c;
                     tickCounter := speed c - 1 |}).
  { unfold m'. rewrite Hrest by lia. f_equal. lia. }
  destruct (tick_column col m' Hs' Hw') as (_ & Hadv).
  destruct (tick_column_cases col m' Hs' Hw') as (_ & Hmove & Hreset).
  rewrite Hc' in Hadv, Hmove, Hreset.
  cbn [headRow speed trailLength tickCounter] in Hadv, Hmove, Hreset.
  rewrite Hh' in Hmove, Hreset.
  destruct Hadv as (mid & _ & _ & Hhm & Hcm & Hup); [lia|].
  split_and!.
  - destruct (Z.le_gt_cases (headRow c + 1 - trailLength c) (height m))
      as [Hin|Hout].
    + rewrite Hmove by lia. reflexivity.
    + destruct Hreset as (spawn & sp & len & _ & _ & _ & ->); [lia..|].
      reflexivity.
  - exists mid. split_and!; [congruence|exact Hcm|exact Hup].
  - intros Hin. apply Hmove; lia.
Qed.

(** C3.  In a run, a tick that advances a column's head row to a value [v]
    with [v - trailLength > height] resets the column within that tick:
    afterwards the head row is negative, the trail length is in 7..10, the
    speed in 1..4 and the counter 0.  In a run the value that triggers the
    reset is always [v = height + trailLength + 1]. *)
Theorem respawn_in_same_tick seed w n col :
  let m := simulate seed w n in
  let c := column m col in
  0 <= col < width m ->
  speed c <= tickCounter c + 1 ->
  height m < headRow c + 1 - trailLength c ->
  let c' := column (update m) col in
  headRow c' < 0 /\ 7 <= trailLength c' <= 10 /\ 1 <= speed c' <= 4 /\
  tickCounter c' = 0 /\
  headRow c + 1 = height m + trailLength c + 1.
Proof.
  intros m c Hcol Hadv Hoff c'.
  destruct (simulate_columns_ok seed w n col Hcol) as (_ & Hlen & _).
  pose proof (simulate_on_track seed w n col Hcol) as Htrack.
  fold m c in Hlen, Htrack.
  destruct (tick_column_cases col m (simulate_sized seed w n) Hcol)
    as (_ & _ & Hreset).
  destruct (Hreset Hadv Hoff) as (spawn & sp & len & Hsp & Hs & Hl & Heq).
  unfold c'. rewrite Heq. cbn [headRow speed trailLength tickCounter].
  fold c. lia.
Qed.

(** C4, as the code has it.  When the test of line 200 fires, the new head
    row is minus one fresh draw from 0..50 minus the trail length the column
    had before the reset; the new speed (1..4) and the new trail length
    (7..10) are drawn after it, in this order, and the new trail length does
    not enter the new head row. *)
Theorem respawn_formula col m :
  sized m -> 0 <= col < width m ->
  let c := column m col in
  height m < headRow c - trailLength c ->
  let d1 := uniform_int 0 50 (rng m) in
  let d2 := uniform_int 1 4 (snd d1) in
  let d3 := uniform_int 7 10 (snd d2) in
  column (respawn col m) col
  = {| headRow := - fst d1 - trailLength c; speed := fst d2;
       trailLength := fst d3; tickCounter := tickCounter c |} /\
  rng (respawn col m) = snd d3 /\
  0 <= fst d1 <= 50 /\ 1 <= fst d2 <= 4 /\ 7 <= fst d3 <= 10.
Proof.
  intros Hm Hcol c Hoff d1 d2 d3.
  pose proof (respawn_self col m Hm Hcol) as H. cbn zeta in H. fold c in H.
  destruct (Z.ltb_spec (height m) (headRow c - trailLength c)); [|lia].
  destruct H as (Hc & Hg).
  split_and!; [exact Hc|exact Hg|..]; apply uniform_int_range; lia.
Qed.

(** C5.  At tail offset [i], when the row [headRow - i] is on the screen:
    if the brightness stored there is below [10 - i] the cell gets the glyph
    selected by one fresh draw and the brightness [max(1, 10 - i)]; if not,
    nothing at all changes.  So a step of the sweep, and the whole sweep
    over [i = 1 .. trailLength - 1], never lowers the brightness of any
    cell; neither does the head write followed by the sweep, in a state
    whose brightness is at most 10. *)
Theorem tail_write_rule col i m :
  sized m -> 0 <= col < width m ->
  let tail_row := headRow (column m col) - i in
  0 <= tail_row < height m ->
  let d := uniform_int 0 (matrix_chars_length - 1) (rng m) in
  (brightness_at m tail_row col < 10 - i ->
     brightness_at (tail_step col i m) tail_row col = Z.max 1 (10 - i) /\
     screen_at (tail_step col i m) tail_row col = matrix_char (fst d) /\
     rng (tail_step col i m) = snd d /\
     0 <= fst d < matrix_chars_length) /\
  (10 - i <= brightness_at m tail_row col -> tail_step col i m = m) /\
  draw_tail col m = for_loop 1 (trailLength (column m col)) (tail_step col) m /\
  (forall r c, 0 <= r -> 0 <= c ->
     brightness_at m r c <= brightness_at (tail_step col i m) r c /\
     brightness_at m r c <= brightness_at (draw_tail col m) r c /\
     (bright_ok m ->
      brightness_at m r c
      <= brightness_at (draw_tail col (draw_head col m)) r c)).
Proof.
  intros Hm Hcol tail_row Hrow d.
  assert (Hstep : tail_step col i m
                  = if brightness_at m tail_row col <? 10 - i
                    then put_brightness tail_row col (Z.max 1 (10 - i))
                           (put_screen tail_row col (matrix_char (fst d))
                              (set_rng (snd d) m))
                    else m).
  { assert (Hrow' : 0 <= vget (drops m) col - i < height m) by exact Hrow.
    unfold tail_step, draw, d, tail_row, column.
    cbn [headRow fst snd char_dist].
    destruct (Z.leb_spec 0 (vget (drops m) col - i)); [|lia].
    destruct (Z.ltb_spec (vget (drops m) col - i) (height m)); [|lia].
    cbn [andb]. destruct (_ <? _); [|reflexivity].
    destruct (uniform_int 0 (matrix_chars_length - 1) (rng m)). reflexivity. }
  split_and!.
  - intros Hdim. rewrite Hstep.
    destruct (Z.ltb_spec (brightness_at m tail_row col) (10 - i)); [|lia].
    destruct (put_lit_at tail_row col (matrix_char (fst d)) (Z.max 1 (10 - i))
                (set_rng (snd d) m)) as (Hs & Hb);
      [by apply (sized_dims m)|exact Hrow|exact Hcol|].
    split; [exact Hb|]. split; [exact Hs|]. split; [reflexivity|].
    pose proof (uniform_int_range 0 (matrix_chars_length - 1) (rng m)) as Hk.
    fold d in Hk.
    assert (0 <= matrix_chars_length - 1) by (vm_compute; discriminate).
    lia.
  - intros Hbright. rewrite Hstep.
    destruct (Z.ltb_spec (brightness_at m tail_row col) (10 - i)); [lia|].
    reflexivity.
  - reflexivity.
  - intros r c Hr Hc. split_and!.
    + apply tail_step_raises; lia.
    + apply draw_tail_raises; lia.
    + intros Hok.
      pose proof (draw_head_raises col m r c Hok).
      pose proof (draw_tail_raises col (draw_head col m) r c). lia.
Qed.


(** C8.  Painting a grid whose every cell has brightness 0 writes, after
    the cursor-home sequence, rows of spaces joined by newlines: nothing but
    spaces and newlines, so no escape byte and no colour sequence.  In every
    frame the rows are joined by newlines, none after the last row. *)
Theorem blank_frame m :
  blank m ->
  render m
  = cursor_home ++
    join_rows newline
      (replicate (Z.to_nat (height m)) (replicate (Z.to_nat (width m)) space)) /\
  Forall (fun c => c = space \/ c = newline)
         (drop (length cursor_home) (render m)) /\
  (esc ∉ drop (length cursor_home) (render m)) /\
  (forall m' : Matrix,
     render m'
     = cursor_home ++
       join_rows newline (map (render_row m') (seqZ 0 (height m')))).
Proof.
  intros Hb.
  assert (Hrows : map (render_row m) (seqZ 0 (height m))
                  = replicate (Z.to_nat (height m))
                      (replicate (Z.to_nat (width m)) space)).
  { assert (Hin : forall row, row ∈ seqZ 0 (height m) -> 0 <= row < height m).
    { intros row Hrow. apply elem_of_seqZ in Hrow. lia. }
    rewrite <- (length_seqZ 0 (height m)).
    induction (seqZ 0 (height m)) as [|row l IH]; [reflexivity|].
    cbn. rewrite render_row_blank by (try apply Hin; by (left || idtac)).
    f_equal. apply IH. intros r Hr. apply Hin. by right. }
  assert (Hframe : render m
                   = cursor_home ++ join_rows newline
                       (replicate (Z.to_nat (height m))
                          (replicate (Z.to_nat (width m)) space)))
    by (rewrite render_joined, Hrows; reflexivity).
  assert (Hchars : Forall (fun c => c = space \/ c = newline)
                     (drop (length cursor_home) (render m))).
  { rewrite Hframe, drop_app_length.
    apply join_rows_chars; [by right|].
    apply Forall_replicate, Forall_replicate. by left. }
  split_and!; [exact Hframe|exact Hchars| |apply render_joined].
  intros Hesc. rewrite Forall_forall in Hchars.
  destruct (Hchars _ Hesc) as [H|H]; discriminate H.
Qed.

(** C10.  In every state a run can reach, and also between the two passes
    of a tick, the glyph of a cell is the space exactly when its brightness
    is 0; no byte of the symbol string is the space. *)
Theorem glyph_blank_iff_dark seed w n :
  let m := simulate seed w n in
  Forall2 (Forall2 (fun c b => c = space <-> b = 0)) (screen m) (brightness m) /\
  Forall2 (Forall2 (fun c b => c = space <-> b = 0))
          (screen (fade m)) (brightness (fade m)) /\
  (forall row col, screen_at m row col = space <-> brightness_at m row col = 0) /\
  (forall k, matrix_char k <> space).
Proof.
  intros m. pose proof (simulate_glyph_ok seed w n) as Hm. fold m in Hm.
  split_and!.
  - exact Hm.
  - apply fade_glyph_ok, Hm.
  - intros row col. apply glyph_ok_at, Hm.
  - apply matrix_char_not_space.
Qed.

End Claims.

(** * Further properties of the code *)

Section Further.
Context {R : RandomSource} {Ord : EvaluationOrder}.
Implicit Types m : Matrix.

(** X1.  What the constructor builds: grids of [ws_row] rows and [ws_col]
    columns, every glyph a space and every brightness 0, and for every
    column a head row in -60..-7, a speed in 1..4, a trail length in 7..10
    and a counter of 0. *)
Theorem construct_initial_state seed w :
  let m := construct seed w in
  let nw := Z.to_nat (Z.of_N (ws_col w)) in
  let nh := Z.to_nat (Z.of_N (ws_row w)) in
  width m = Z.of_N (ws_col w) /\ height m = Z.of_N (ws_row w) /\
  screen m = replicate nh (replicate nw space) /\
  brightness m = replicate nh (replicate nw 0) /\
  length (drops m) = nw /\ length (speeds m) = nw /\
  length (lengths m) = nw /\ length (counters m) = nw /\
  (forall col, 0 <= col < width m ->
     -60 <= headRow (column m col) <= -7 /\
     1 <= speed (column m col) <= 4 /\
     7 <= trailLength (column m col) <= 10 /\
     tickCounter (column m col) = 0).
Proof.
  intros m nw nh.
  pose proof (construct_frame seed w) as (Hd & Hg).
  fold m nw nh in Hd, Hg. unfold dims, grids in Hd, Hg.
  injection Hd as Hw Hh _ _ Hdr Hsp Hl Hc. injection Hg as Hs Hb.
  split_and!; try assumption.
  intros col Hcol.
  apply (construct_column_property
           (fun c => -60 <= headRow c <= -7 /\ 1 <= speed c <= 4 /\
                     7 <= trailLength c <= 10 /\ tickCounter c = 0));
    [|exact Hcol].
  intros x i Hx Hi. apply (init_column_values i x Hx Hi).
Qed.

(** X2.  No tick resizes anything: after any number of ticks the object
    still has the width and height read at start-up, both grids have
    [height] rows of [width] cells and the four column vectors have [width]
    entries. *)
Theorem run_keeps_shape seed w n :
  let m := simulate seed w n in
  let nw := N.to_nat (ws_col w) in
  let nh := N.to_nat (ws_row w) in
  width m = Z.of_N (ws_col w) /\ height m = Z.of_N (ws_row w) /\
  length (screen m) = nh /\ Forall (fun r => length r = nw) (screen m) /\
  length (brightness m) = nh /\ Forall (fun r => length r = nw) (brightness m) /\
  length (drops m) = nw /\ length (speeds m) = nw /\
  length (lengths m) = nw /\ length (counters m) = nw.
Proof.
  cbn zeta. destruct (simulate_sized seed w n).
  pose proof (simulate_width seed w n) as Hw.
  pose proof (simulate_height seed w n) as Hh.
  assert (Enw : Z.to_nat (width (simulate seed w n)) = N.to_nat (ws_col w))
    by (rewrite Hw; lia).
  assert (Enh : Z.to_nat (height (simulate seed w n)) = N.to_nat (ws_row w))
    by (rewrite Hh; lia).
  rewrite <- Enw, <- Enh. split_and!; assumption.
Qed.

(** X3.  In every state of a run every column has a speed in 1..4, a trail
    length in 7..10, a counter from 0 up to but not including the speed, and
    a head row between -60 and [height + trailLength]. *)
Theorem column_invariants seed w n col :
  let m := simulate seed w n in
  0 <= col < width m ->
  let c := column m col in
  1 <= speed c <= 4 /\ 7 <= trailLength c <= 10 /\
  0 <= tickCounter c < speed c /\
  -60 <= headRow c <= height m + trailLength c.
Proof.
  intros m Hcol c.
  destruct (simulate_columns_ok seed w n col Hcol) as (Hs & Hl & Hk).
  pose proof (simulate_on_track seed w n col Hcol) as Ht.
  pose proof (simulate_head_floor seed w n col Hcol) as Hf.
  fold m c in Hs, Hl, Hk, Ht, Hf. lia.
Qed.

(** X6.  After a tick that advances a column to head row [v]: if row [v] is
    on the screen its cell has brightness 10 and a byte of the symbol string
    as glyph, and every row [v - i] of the trail ([1 <= i < trailLength])
    that is on the screen has brightness at least [10 - i]. *)
Theorem trail_gradient m col :
  sized m -> 0 <= col < width m ->
  let c := column m col in
  speed c <= tickCounter c + 1 ->
  let v := headRow c + 1 in
  (0 <= v < height m ->
     brightness_at (update m) v col = 10 /\
     exists k, 0 <= k < matrix_chars_length /\
               screen_at (update m) v col = matrix_char k) /\
  (forall i, 1 <= i < trailLength c -> 0 <= v - i < height m ->
     10 - i <= brightness_at (update m) (v - i) col).
Proof. apply advancing_tick_cells. Qed.

(** X7.  The step of column [j] changes nothing that belongs to another
    column: neither a glyph, nor a brightness, nor the other column's head
    row, speed, trail length or counter. *)
Theorem column_step_is_local j col m row :
  0 <= j -> 0 <= col -> 0 <= row -> col <> j ->
  screen_at (update_column j m) row col = screen_at m row col /\
  brightness_at (update_column j m) row col = brightness_at m row col /\
  column (update_column j m) col = column m col.
Proof.
  intros Hj Hcol Hrow Hne.
  pose proof (update_column_other_cells j m row col Hj Hrow Hcol Hne) as Hc.
  unfold cell in Hc. injection Hc as Hs Hb.
  split_and!; [exact Hs|exact Hb|]. apply update_column_other; lia.
Qed.

(** X4.  The rain starts above the screen: after fewer than 7 ticks both
    grids are exactly as the constructor left them, every glyph a space and
    every brightness 0. *)
Theorem blank_start seed w n :
  (n < 7)%nat ->
  let nw := Z.to_nat (Z.of_N (ws_col w)) in
  let nh := Z.to_nat (Z.of_N (ws_row w)) in
  screen (simulate seed w n) = replicate nh (replicate nw space) /\
  brightness (simulate seed w n) = replicate nh (replicate nw 0).
Proof.
  intros Hn nw nh.
  pose proof (simulate_blank_start seed w n Hn) as Hg.
  pose proof (construct_frame seed w) as (_ & Hc). rewrite <- Hg in Hc.
  unfold grids in Hc. injection Hc as Hs Hb. split; assumption.
Qed.

(** X5.  The motion of a drop in closed form.  While the trail has not left
    the screen, after [t] ticks the counter is [(tickCounter + t) mod speed]
    and the head row is [headRow + (tickCounter + t) / speed]; speed and
    trail length are unchanged. *)
Theorem column_motion m col (t : nat) :
  sized m -> 0 <= col < width m ->
  let c := column m col in
  1 <= speed c -> 0 <= tickCounter c < speed c ->
  headRow c + (tickCounter c + Z.of_nat t) / speed c - trailLength c
  <= height m ->
  column (Nat.iter t update m) col
  = {| headRow := headRow c + (tickCounter c + Z.of_nat t) / speed c;
       speed := speed c;
       trailLength := trailLength c;
       tickCounter := (tickCounter c + Z.of_nat t) mod speed c |}.
Proof. apply column_motion_steps. Qed.

(** X8.  A drop whose head is at row [d < 0] enters the screen at tick
    [speed * (-d) - tickCounter] and not before: until then its head row is
    negative, at that tick it is 0 with the counter back at 0, and, when the
    screen has a row at all, the cell of row 0 has brightness 10. *)
Theorem drop_enters_screen m col :
  sized m -> 0 <= col < width m ->
  let c := column m col in
  1 <= speed c -> 0 <= tickCounter c < speed c ->
  0 <= trailLength c -> headRow c < 0 ->
  let T := Z.to_nat (speed c * (- headRow c) - tickCounter c) in
  (forall t : nat, (t < T)%nat ->
     headRow (column (Nat.iter t update m) col) < 0) /\
  column (Nat.iter T update m) col
  = {| headRow := 0; speed := speed c; trailLength := trailLength c;
       tickCounter := 0 |} /\
  (0 < height m -> brightness_at (Nat.iter T update m) 0 col = 10).
Proof.
  intros Hm Hcol c Hs Hk Hl Hd T.
  pose proof (sized_height _ Hm) as Hh.
  set (s := speed c) in *. set (k := tickCounter c) in *.
  set (d := headRow c) in *.
  assert (HT : Z.of_nat T = s * (- d) - k) by (unfold T; nia).
  assert (Hbefore : forall t : nat, (t < T)%nat ->
            (k + Z.of_nat t) / s < - d).
  { intros t Ht. apply Z.div_lt_upper_bound; nia. }
  assert (Hclosed : forall t : nat, (t < T)%nat ->
            column (Nat.iter t update m) col
            = {| headRow := d + (k + Z.of_nat t) / s; speed := s;
                 trailLength := trailLength c;
                 tickCounter := (k + Z.of_nat t) mod s |}).
  { intros t Ht. apply column_motion_steps; try assumption.
    fold c d k s. specialize (Hbefore t Ht). lia. }
  split_and!.
  - intros t Ht. rewrite (Hclosed t Ht). cbn [headRow].
    specialize (Hbefore t Ht). lia.
  - rewrite (column_motion_steps m col T Hm Hcol Hs Hk).
    + fold c d k s. rewrite HT.
      replace (k + (s * - d - k)) with ((- d) * s) by lia.
      rewrite Z.div_mul, Z.mod_mul by lia. f_equal. lia.
    + fold c d k s. rewrite HT.
      replace (k + (s * - d - k)) with ((- d) * s) by lia.
      rewrite Z.div_mul by lia. lia.
  - intros Hrow. destruct T as [|last] eqn:ET; [nia|].
    rewrite Nat.iter_succ. set (m' := Nat.iter last update m).
    assert (Hs' : sized m')
      by (eapply sized_dims; [apply iter_update_dims|exact Hm]).
    assert (Hw' : 0 <= col < width m')
      by (unfold m'; rewrite (dims_width _ _ (iter_update_dims last m));
          exact Hcol).
    assert (Hh' : height m' = height m) by apply dims_height, iter_update_dims.
    assert (Hc' : column m' col
                  = {| headRow := -1; speed := s; trailLength := trailLength c;
                       tickCounter := s - 1 |}).
    { unfold m'. rewrite (Hclosed last) by lia.
      replace (k + Z.of_nat last) with ((- d - 1) * s + (s - 1)) by lia.
      destruct (div_mod_last (- d - 1) s ltac:(lia)) as (-> & ->).
      f_equal. lia. }
    destruct (advancing_tick_cells m' col Hs' Hw') as (Hhead & _).
    { rewrite Hc'. cbn [speed tickCounter]. lia. }
    rewrite Hc' in Hhead. cbn [headRow] in Hhead.
    change (-1 + 1) with 0 in Hhead. apply Hhead. lia.
Qed.

(** X9.  Every drop is reset.  A column whose trail has not yet left the
    screen is reset at tick
    [speed * (height + trailLength + 1 - headRow) - tickCounter] and not
    before: until then speed and trail length stay and the head row is at
    most [height + trailLength]; at that tick the head row is minus a fresh
    delay from 0..50 minus the old trail length, with a fresh speed and
    trail length.  For a column of a run that is at most
    [4 * (height + 71)] ticks. *)
Theorem column_respawns m col :
  sized m -> 0 <= col < width m ->
  let c := column m col in
  1 <= speed c -> 0 <= tickCounter c < speed c ->
  headRow c - trailLength c <= height m ->
  let T := Z.to_nat (speed c * (height m + trailLength c + 1 - headRow c)
                     - tickCounter c) in
  (forall t : nat, (t < T)%nat ->
     speed (column (Nat.iter t update m) col) = speed c /\
     trailLength (column (Nat.iter t update m) col) = trailLength c /\
     headRow c <= headRow (column (Nat.iter t update m) col)
               <= height m + trailLength c) /\
  (exists spawn sp len,
     0 <= spawn <= 50 /\ 1 <= sp <= 4 /\ 7 <= len <= 10 /\
     column (Nat.iter T update m) col
     = {| headRow := - spawn - trailLength c; speed := sp;
          trailLength := len; tickCounter := 0 |}) /\
  (speed c <= 4 -> trailLength c <= 10 -> -60 <= headRow c ->
   Z.of_nat T <= 4 * (height m + 71)).
Proof.
  intros Hm Hcol c Hs Hk Htrack T.
  pose proof (sized_height _ Hm) as Hh.
  set (s := speed c) in *. set (k := tickCounter c) in *.
  set (d := headRow c) in *. set (l := trailLength c) in *.
  set (n := height m + l + 1 - d) in *.
  assert (Hn : 1 <= n) by (unfold n; lia).
  assert (HT : Z.of_nat T = s * n - k) by (unfold T; nia).
  assert (Hbefore : forall t : nat, (t < T)%nat ->
            0 <= (k + Z.of_nat t) / s < n).
  { intros t Ht. split.
    - apply Z.div_pos; lia.
    - apply Z.div_lt_upper_bound; nia. }
  assert (Hclosed : forall t : nat, (t < T)%nat ->
            column (Nat.iter t update m) col
            = {| headRow := d + (k + Z.of_nat t) / s; speed := s;
                 trailLength := l;
                 tickCounter := (k + Z.of_nat t) mod s |}).
  { intros t Ht. apply column_motion_steps; try assumption.
    fold c d k s l. specialize (Hbefore t Ht). unfold n in Hbefore. lia. }
  split_and!.
  - intros t Ht. rewrite (Hclosed t Ht).
    cbn [headRow speed trailLength]. specialize (Hbefore t Ht).
    unfold n in Hbefore. lia.
  - destruct T as [|last] eqn:ET; [nia|].
    rewrite Nat.iter_succ. set (m' := Nat.iter last update m).
    assert (Hs' : sized m')
      by (eapply sized_dims; [apply iter_update_dims|exact Hm]).
    assert (Hw' : 0 <= col < width m')
      by (unfold m'; rewrite (dims_width _ _ (iter_update_dims last m));
          exact Hcol).
    assert (Hh' : height m' = height m) by apply dims_height, iter_update_dims.
    assert (Hc' : column m' col
                  = {| headRow := height m + l; speed := s; trailLength := l;
                       tickCounter := s - 1 |}).
    { unfold m'. rewrite (Hclosed last) by lia.
      replace (k + Z.of_nat last) with ((n - 1) * s + (s - 1)) by lia.
      destruct (div_mod_last (n - 1) s ltac:(lia)) as (-> & ->).
      f_equal. unfold n. lia. }
    destruct (tick_column_cases col m' Hs' Hw') as (_ & _ & Hreset).
    rewrite Hc', Hh' in Hreset.
    cbn [headRow speed trailLength tickCounter] in Hreset.
    apply Hreset; lia.
  - intros Hs4 Hl10 Hd60. rewrite HT. unfold n. nia.
Qed.

(** X10.  What a frame paints for one cell in any state of a run: a cell of
    brightness 0 is one space; a lit cell is its glyph between a colour
    sequence and the reset sequence, bright green for brightness 6..10 and
    dim green for 1..5. *)
Theorem cell_paint seed w n row col :
  let m := simulate seed w n in
  let b := brightness_at m row col in
  0 <= b <= 10 /\
  render_cell m row col
  = if b =? 0 then [space]
    else (if 5 <? b then bright_green else dim_green)
         ++ [screen_at m row col] ++ color_reset.
Proof.
  intros m b.
  pose proof (bright_ok_at m row col (simulate_bright_ok seed w n)) as Hb.
  split; [exact Hb|]. fold b in Hb.
  destruct (Z.eqb_spec b 0) as [H0|Hpos].
  - by apply render_cell_dark.
  - apply render_cell_lit; [apply simulate_glyph_ok|fold b; lia].
Qed.

(** X11.  The screen grid of a run never holds anything but a space or a
    byte [matrix_chars[k]] with [k] in the range of [char_dist]; in
    particular never a newline and never an escape byte. *)
Theorem screen_holds_symbols seed w n row col :
  let c := screen_at (simulate seed w n) row col in
  (c = space \/
   exists k, 0 <= k <= matrix_chars_length - 1 /\ c = matrix_char k) /\
  c <> newline /\ c <> esc.
Proof.
  intros c.
  pose proof (symbols_only_at _ row col (simulate_symbols_only seed w n)) as H.
  fold c in H. split; [exact H|]. apply symbol_plain, H.
Qed.

(** X12.  Every frame of a run breaks into exactly [ws_row] lines: the
    bytes that [render()] writes hold [ws_row - 1] newlines (none on a
    terminal without rows). *)
Theorem frame_line_count seed w n :
  newlines (render (simulate seed w n)) = Nat.pred (N.to_nat (ws_row w)).
Proof.
  rewrite render_joined, newlines_app.
  rewrite (newlines_none cursor_home)
    by (repeat constructor; intros H; discriminate H).
  rewrite newlines_join.
  - rewrite length_map, length_seqZ, simulate_height. cbn. f_equal. lia.
  - apply Forall_map, Forall_forall. intros row _.
    apply render_row_no_newline, simulate_symbols_only.
Qed.

(** X13.  What a session that gets its memory does to standard output, in
    program order: it runs [clear], inserts the hide-cursor sequence and the
    start banner, then for each poll of the keyboard that saw no key inserts
    the frame of the next state ([k + 1] ticks for the [k]-th poll) and
    flushes, then inserts the show-cursor sequence and the colour reset,
    runs [clear] again and inserts the end banner.  The bytes it inserts
    itself are therefore those sequences, banners and frames in that
    order. *)
Theorem session_stream env :
  memory_ok env = true ->
  let frame k := render (simulate (clock env) (ioctl_winsize env) (S k)) in
  let polls := seq 0 (frames_before_key env) in
  stdout (main env)
  = [System "clear"; Insert hideCursor; Insert start_banner]
    ++ concat (map (fun k => [Insert (frame k); Flush]) polls)
    ++ [Insert showCursor; Insert resetColor; System "clear";
        Insert end_banner] /\
  inserted (stdout (main env))
  = hideCursor ++ start_banner ++ concat (map frame polls)
    ++ showCursor ++ resetColor ++ end_banner.
Proof.
  intros Hmem frame polls.
  assert (Hout : stdout (main env)
                 = [System "clear"; Insert hideCursor; Insert start_banner]
                   ++ concat (map (fun k => [Insert (frame k); Flush]) polls)
                   ++ [Insert showCursor; Insert resetColor; System "clear";
                       Insert end_banner]).
  { unfold main, Matrix_ctor. rewrite Hmem. cbn [stdout]. unfold run.
    pose proof (animate_frames (frames_before_key env)
                  (construct (clock env) (ioctl_winsize env))
                  (clearScreen ++ [Insert hideCursor; Insert start_banner]))
      as Hout.
    destruct (animate _ _ _) as [m out]. cbn [snd] in Hout |- *. subst out.
    unfold clearScreen. rewrite <- !app_assoc. reflexivity. }
  split; [exact Hout|]. rewrite Hout, !inserted_app, inserted_frames.
  cbn [inserted app]. rewrite !app_nil_r, <- !app_assoc. reflexivity.
Qed.

(** X16.  The fade pass on a state of a run, for a cell of the visible
    area: a cell brighter than 3 keeps its glyph and loses 3; any other cell
    ends as a space of brightness 0. *)
Theorem fade_pass seed w n row col :
  let m := simulate seed w n in
  0 <= row < height m -> 0 <= col < width m ->
  cell (fade m) row col
  = if 3 <? brightness_at m row col
    then (screen_at m row col, brightness_at m row col - 3)
    else (space, 0).
Proof.
  intros m Hrow Hcol. unfold cell.
  pose proof (bright_ok_at m row col (simulate_bright_ok seed w n)) as Hb.
  pose proof (glyph_ok_at m row col (simulate_glyph_ok seed w n)) as Hg.
  rewrite fade_glyph_at, fade_at
    by (try apply simulate_bright_ok; assumption).
  destruct (Z.ltb_spec 3 (brightness_at m row col)) as [Hgt|Hle].
  - rewrite decide_False by lia. f_equal. lia.
  - f_equal; [|lia]. case_decide as Hlit; [reflexivity|].
    apply Hg. lia.
Qed.

End Further.

(** ** Engines of different make *)

Section FurtherEngines.
Context {Ord : EvaluationOrder}.
Variables R1 R2 : RandomSource.
Variable sim : @engine R1 -> @engine R2 -> Prop.
Hypothesis sim_draw :
  forall a b g1 g2,
    sim g1 g2 ->
    fst (uniform_int a b g1) = fst (uniform_int a b g2) /\
    sim (snd (uniform_int a b g1)) (snd (uniform_int a b g2)).

(** X15.  The animation depends on the engine only through the values it
    draws.  Two engines whose states stay related while equal requests give
    equal values, started from related states, lead tick for tick to the
    same glyphs, the same brightness, the same columns and the same frame. *)
Theorem engines_paint_same_frames seed1 seed2 w n :
  sim (seed_engine seed1) (seed_engine seed2) ->
  let m1 := simulate (R := R1) seed1 w n in
  let m2 := simulate (R := R2) seed2 w n in
  screen m1 = screen m2 /\ brightness m1 = brightness m2 /\
  (forall col, column m1 col = column m2 col) /\
  render m1 = render m2.
Proof.
  intros Hseed m1 m2.
  pose proof (simulate_same_draws R1 R2 sim sim_draw seed1 seed2 w n Hseed)
    as Hv.
  fold m1 m2 in Hv.
  pose proof (render_related R1 R2 sim m1 m2 Hv) as Hr.
  destruct Hv as (_ & _ & Hs & Hb & Hd & Hsp & Hl & Hc & _).
  split_and!; [exact Hs|exact Hb| |exact Hr].
  intros col. unfold column. by rewrite Hd, Hsp, Hl, Hc.
Qed.

End FurtherEngines.

(** ** The keyboard poll *)

Lemma land_clear_l x a b : Z.land (Z.land x (Z.lnot (Z.lor a b))) a = 0.
Proof.
  apply Z.bits_inj'. intros i Hi.
  rewrite !Z.land_spec, Z.lnot_spec, Z.lor_spec, Z.bits_0 by lia.
  destruct (Z.testbit x i), (Z.testbit a i), (Z.testbit b i); reflexivity.
Qed.

Lemma land_clear_r x a b : Z.land (Z.land x (Z.lnot (Z.lor a b))) b = 0.
Proof. rewrite (Z.lor_comm a b). apply land_clear_l. Qed.

Lemma land_set f o : Z.land (Z.lor f o) o = o.
Proof.
  apply Z.bits_inj'. intros i Hi. rewrite Z.land_spec, Z.lor_spec.
  destruct (Z.testbit f i), (Z.testbit o i); reflexivity.
Qed.

(** X14.  A poll of the keyboard returns at once, leaves standard input as
    it found it and consumes nothing: the terminal attributes and the file
    status flags are restored, a pending byte is pushed back, and the
    answer is true exactly when a byte was pending.  While [getchar()] runs
    the terminal has [ICANON] and [ECHO] cleared and the descriptor has
    [O_NONBLOCK] set. *)
Theorem kbhit_leaves_stdin K t :
  O_NONBLOCK K <> 0 ->
  kbhit K t
  = Returns (match pending t with [] => false | _ :: _ => true end, t) /\
  let reading := snd (kbhit_prepare K t) in
  Z.land (c_lflag (attributes reading)) (ICANON K) = 0 /\
  Z.land (c_lflag (attributes reading)) (ECHO K) = 0 /\
  Z.land (status_flags reading) (O_NONBLOCK K) = O_NONBLOCK K /\
  pending reading = pending t.
Proof.
  intros Hnb. destruct t as [a f p]. split.
  - unfold kbhit, kbhit_prepare, getchar, tcgetattr, tcsetattr, fcntl_getfl,
      fcntl_setfl, ungetc.
    cbn. destruct p as [|c rest]; [|reflexivity].
    rewrite land_set. destruct (Z.eqb_spec (O_NONBLOCK K) 0); [done|reflexivity].
  - cbn. split_and!;
      [apply land_clear_l|apply land_clear_r|apply land_set|reflexivity].
Qed.

(** * Worked instances

    The statements above, run on the linear congruential engine. *)

#[local] Existing Instance left_to_right.

Ltac refute_by_computation :=
  vm_compute; let H := fresh in intros H; discriminate H.

Ltac sized_by_computation :=
  split;
  [refute_by_computation | refute_by_computation
  | vm_compute; reflexivity | vm_compute; repeat constructor
  | vm_compute; reflexivity | vm_compute; repeat constructor
  | vm_compute; reflexivity .. ].

Lemma brightness_bounded_each_pass_witness :
  brightness_at (rain_5x3 120) 4 0 = 4 /\
  brightness_at (fade (rain_5x3 120)) 4 0 = 1 /\
  brightness_at (rain_5x3 120) 1 0 = 1 /\
  brightness_at (fade (rain_5x3 120)) 1 0 = 0.
Proof.
  unfold rain_5x3. set (m := simulate 42 term_5x3 120).
  assert (Hh : height m = 5) by (vm_compute; reflexivity).
  assert (Hw : width m = 3) by (vm_compute; reflexivity).
  assert (H4 : brightness_at m 4 0 = 4) by (vm_compute; reflexivity).
  assert (H1 : brightness_at m 1 0 = 1) by (vm_compute; reflexivity).
  destruct (brightness_bounded_each_pass (R := lcg) 42 term_5x3 120)
    as (_ & _ & _ & Hfade).
  fold m in Hfade.
  split; [exact H4|]. split; [|split; [exact H1|]].
  - rewrite Hfade by (rewrite ?Hh, ?Hw; lia). rewrite H4. reflexivity.
  - rewrite Hfade by (rewrite ?Hh, ?Hw; lia). rewrite H1. reflexivity.
Defined.

Lemma speed_control_witness :
  column (rain_5x3 0) 0
  = {| headRow := -15; speed := 2; trailLength := 8; tickCounter := 0 |} /\
  column (Nat.iter 1 update (rain_5x3 0)) 0
  = {| headRow := -15; speed := 2; trailLength := 8; tickCounter := 1 |} /\
  column (Nat.iter 2 update (rain_5x3 0)) 0
  = {| headRow := -14; speed := 2; trailLength := 8; tickCounter := 0 |}.
Proof.
  unfold rain_5x3. set (m := simulate 42 term_5x3 0).
  assert (Hc : column m 0
               = {| headRow := -15; speed := 2; trailLength := 8;
                    tickCounter := 0 |}) by (vm_compute; reflexivity).
  assert (Hh : height m = 5) by (vm_compute; reflexivity).
  assert (Hw : 0 <= 0 < width m)
    by (split; [refute_by_computation|vm_compute; reflexivity]).
  pose proof (speed_control (R := lcg) m 0 (simulate_sized _ _ _) Hw) as H.
  cbn zeta in H. rewrite Hc, Hh in H.
  cbn [headRow speed trailLength tickCounter] in H.
  destruct H as (Hrest & _ & _ & Hmove); [lia..|].
  split; [reflexivity|]. split.
  - apply (Hrest 1%nat). lia.
  - apply Hmove. lia.
Defined.

Lemma respawn_in_same_tick_witness :
  column (rain_1x1 7 50) 0
  = {| headRow := 10; speed := 1; trailLength := 9; tickCounter := 0 |} /\
  height (rain_1x1 7 50) = 1 /\
  headRow (column (update (rain_1x1 7 50)) 0) < 0 /\
  7 <= trailLength (column (update (rain_1x1 7 50)) 0) <= 10 /\
  1 <= speed (column (update (rain_1x1 7 50)) 0) <= 4 /\
  tickCounter (column (update (rain_1x1 7 50)) 0) = 0 /\
  10 + 1 = 1 + 9 + 1.
Proof.
  unfold rain_1x1. set (m := simulate 7 term_1x1 50).
  assert (Hc : column m 0
               = {| headRow := 10; speed := 1; trailLength := 9;
                    tickCounter := 0 |}) by (vm_compute; reflexivity).
  assert (Hh : height m = 1) by (vm_compute; reflexivity).
  assert (Hw : width m = 1) by (vm_compute; reflexivity).
  split; [exact Hc|]. split; [exact Hh|].
  pose proof (respawn_in_same_tick (R := lcg) 7 term_1x1 50 0) as H.
  cbn zeta in H. fold m in H. rewrite Hc, Hh, Hw in H.
  cbn [headRow speed trailLength tickCounter] in H.
  apply H; lia.
Defined.

(** C4, as the claim words it, fails.  Seed 10 on a terminal of one row and
    one column: the 48th tick moves the head from row 10 to row 11 with a
    trail of 9, so line 200 fires.  The delay drawn is 13 and the code sets
    the head row to [-13 - 9 = -22], with the old trail length 9.  The
    expression of line 70, evaluated on the same engine state, draws the
    same delay and then a length of 10: [-13 - 10 = -23]; with its right
    operand evaluated first it gives -26.  The trail length that line 203
    draws for the column is 7, and [-13 - 7 = -20] is not the new head row
    either. *)
Lemma respawn_is_not_the_initial_formula :
  column (update (rain_1x1 10 47)) 0 = column (respawn 0 at_line_200) 0 /\
  height at_line_200
  < headRow (column at_line_200 0) - trailLength (column at_line_200 0) /\
  trailLength (column at_line_200 0) = 9 /\
  fst (uniform_int 0 50 (rng at_line_200)) = 13 /\
  headRow (column (respawn 0 at_line_200) 0) = -22 /\
  trailLength (column (respawn 0 at_line_200) 0) = 7 /\
  fst (spawn_row left_first at_line_200) = -23 /\
  fst (spawn_row right_first at_line_200) = -26 /\
  headRow (column (respawn 0 at_line_200) 0)
  <> fst (spawn_row left_first at_line_200) /\
  headRow (column (respawn 0 at_line_200) 0)
  <> fst (spawn_row right_first at_line_200).
Proof.
  split_and!;
    [vm_compute; reflexivity ..|refute_by_computation|refute_by_computation].
Qed.

Lemma respawn_formula_witness :
  column at_line_200 0
  = {| headRow := 11; speed := 2; trailLength := 9; tickCounter := 0 |} /\
  column (respawn 0 at_line_200) 0
  = {| headRow := - fst (uniform_int 0 50 (rng at_line_200)) - 9;
       speed :=
         fst (uniform_int 1 4 (snd (uniform_int 0 50 (rng at_line_200))));
       trailLength :=
         fst (uniform_int 7 10
                (snd (uniform_int 1 4
                        (snd (uniform_int 0 50 (rng at_line_200))))));
       tickCounter := 0 |}.
Proof.
  set (mid := at_line_200).
  assert (Hc : column mid 0
               = {| headRow := 11; speed := 2; trailLength := 9;
                    tickCounter := 0 |}) by (vm_compute; reflexivity).
  assert (Hh : height mid = 1) by (vm_compute; reflexivity).
  assert (Hw : width mid = 1) by (vm_compute; reflexivity).
  assert (Hs : sized mid) by sized_by_computation.
  split; [exact Hc|].
  pose proof (respawn_formula (R := lcg) 0 mid Hs) as H.
  cbn zeta in H. rewrite Hc, Hh, Hw in H.
  cbn [headRow speed trailLength tickCounter] in H.
  apply H; lia.
Defined.

Lemma tail_write_rule_witness :
  headRow (column (rain_5x3 120) 0) = 4 /\
  brightness_at (rain_5x3 120) 3 0 = 3 /\
  brightness_at (tail_step 0 1 (rain_5x3 120)) 3 0 = 9 /\
  (forall r c, 0 <= r -> 0 <= c ->
     brightness_at (rain_5x3 120) r c
     <= brightness_at (draw_tail 0 (rain_5x3 120)) r c).
Proof.
  unfold rain_5x3. set (m := simulate 42 term_5x3 120).
  assert (Hd : headRow (column m 0) = 4) by (vm_compute; reflexivity).
  assert (Hb : brightness_at m 3 0 = 3) by (vm_compute; reflexivity).
  assert (Hh : height m = 5) by (vm_compute; reflexivity).
  assert (Hw : width m = 3) by (vm_compute; reflexivity).
  pose proof (tail_write_rule (R := lcg) 0 1 m (simulate_sized _ _ _)) as H.
  cbn zeta in H. rewrite Hd, Hh, Hw in H.
  change (4 - 1) with 3 in H. rewrite Hb in H.
  destruct H as (Hwrite & _ & _ & Hmono); [lia..|].
  split; [exact Hd|]. split; [exact Hb|]. split.
  - destruct Hwrite as (Hv & _); [lia|]. exact Hv.
  - intros r c Hr Hc. apply (Hmono r c); assumption.
Defined.



Lemma blank_frame_witness :
  render fresh_2x3
  = cursor_home ++ [space; space; space; newline; space; space; space].
Proof.
  set (m := fresh_2x3).
  assert (Hh : height m = 2) by (vm_compute; reflexivity).
  assert (Hw : width m = 3) by (vm_compute; reflexivity).
  assert (Hb : blank m).
  { intros row col Hrow Hcol. rewrite Hh in Hrow. rewrite Hw in Hcol.
    assert (Hr : row = 0 \/ row = 1) by lia.
    assert (Hc : col = 0 \/ col = 1 \/ col = 2) by lia.
    destruct Hr as [-> | ->]; destruct Hc as [-> | [-> | ->]];
      vm_compute; reflexivity. }
  destruct (blank_frame (R := lcg) m Hb) as (Hframe & _).
  rewrite Hframe, Hh, Hw. reflexivity.
Defined.

(** C6, at a failing input.  Seed 5 on a terminal of one row and one column:
    the 48th tick brings the head to row 0.  The cell gets brightness 10,
    and as glyph the single byte 227 (0xE3), the lead byte of a three-byte
    katakana: not one of the 66 characters of the alphabet.  Of the 158
    indices the draw can return, 46 select that byte and one selects the
    digit 0; the first 138 indices all select a byte that is no character
    of the alphabet, the last 20 select the digits and symbols. *)
Theorem head_glyph_is_a_byte :
  headRow (column (rain_1x1 5 47) 0) = -1 /\
  headRow (column (update (rain_1x1 5 47)) 0) = 0 /\
  brightness_at (update (rain_1x1 5 47)) 0 0 = 10 /\
  screen_at (update (rain_1x1 5 47)) 0 0 = "227"%char /\
  in_alphabet [screen_at (update (rain_1x1 5 47)) 0 0] = false /\
  length symbol_alphabet = 66%nat /\
  matrix_chars_length = 158 /\
  index_count "227"%char = 46%nat /\
  index_count "0"%char = 1%nat /\
  forallb (fun k => negb (in_alphabet [matrix_char k])) (seqZ 0 138) = true /\
  forallb (fun k => in_alphabet [matrix_char k]) (seqZ 138 20) = true.
Proof. split_and!; vm_compute; reflexivity. Qed.

(** C9, at a failing input.  With standard output not a terminal, [ioctl]
    fails; the program does not look at its result, runs the animation on
    whatever [w] holds and, at the keypress, exits with code 0 and an empty
    error stream. *)
Theorem main_ignores_ioctl_failure :
  ioctl_result not_a_terminal = -1 /\
  exit_code (main (R := lcg) not_a_terminal) = 0 /\
  stderr (main (R := lcg) not_a_terminal) = [].
Proof. split_and!; vm_compute; reflexivity. Qed.

(** ** The further properties, run on the same engine *)

Lemma construct_initial_state_witness :
  screen fresh_2x3 = [[space; space; space]; [space; space; space]] /\
  brightness fresh_2x3 = [[0; 0; 0]; [0; 0; 0]].
Proof.
  pose proof (construct_initial_state (R := lcg) 42
                {| ws_row := 2; ws_col := 3 |}) as H.
  cbn zeta in H. destruct H as (_ & _ & Hs & Hb & _).
  split; [exact Hs|exact Hb].
Defined.

Lemma column_invariants_witness :
  let c := column (simulate (R := lcg) 42 term_5x3 120) 0 in
  1 <= speed c <= 4 /\ 7 <= trailLength c <= 10 /\
  0 <= tickCounter c < speed c /\ -60 <= headRow c <= 5 + trailLength c.
Proof.
  assert (Hw : width (simulate (R := lcg) 42 term_5x3 120) = 3)
    by (vm_compute; reflexivity).
  assert (Hh : height (simulate (R := lcg) 42 term_5x3 120) = 5)
    by (vm_compute; reflexivity).
  pose proof (column_invariants (R := lcg) 42 term_5x3 120 0) as H.
  cbn zeta in H. rewrite Hw, Hh in H. apply H. lia.
Defined.

Lemma blank_start_witness :
  screen (simulate (R := lcg) 42 term_5x3 6) = replicate 5 (replicate 3 space) /\
  brightness (simulate (R := lcg) 42 term_5x3 6) = replicate 5 (replicate 3 0).
Proof. apply (blank_start (R := lcg) 42 term_5x3 6). lia. Defined.

(** Column 0 of [rain_5x3] starts 15 rows above the screen with speed 2:
    31 ticks bring the head to row 0, one tick into the next step. *)
Lemma column_motion_witness :
  column (Nat.iter 31 update (rain_5x3 0)) 0
  = {| headRow := 0; speed := 2; trailLength := 8; tickCounter := 1 |}.
Proof.
  assert (Hc : column (rain_5x3 0) 0
               = {| headRow := -15; speed := 2; trailLength := 8;
                    tickCounter := 0 |}) by (vm_compute; reflexivity).
  assert (Hw : width (rain_5x3 0) = 3) by (vm_compute; reflexivity).
  assert (Hh : height (rain_5x3 0) = 5) by (vm_compute; reflexivity).
  pose proof (column_motion (R := lcg) (rain_5x3 0) 0 31
                (simulate_sized 42 term_5x3 0)) as H.
  cbn zeta in H. rewrite Hc, Hw, Hh in H.
  cbn [headRow speed trailLength tickCounter] in H.
  apply H; [lia..|]. refute_by_computation.
Defined.

(** The 36th tick of [rain_5x3] moves the head of column 0 to row 3. *)
Lemma trail_gradient_witness :
  brightness_at (update (rain_5x3 35)) 3 0 = 10 /\
  9 <= brightness_at (update (rain_5x3 35)) 2 0 /\
  8 <= brightness_at (update (rain_5x3 35)) 1 0 /\
  7 <= brightness_at (update (rain_5x3 35)) 0 0.
Proof.
  assert (Hc : column (rain_5x3 35) 0
               = {| headRow := 2; speed := 2; trailLength := 8;
                    tickCounter := 1 |}) by (vm_compute; reflexivity).
  assert (Hw : width (rain_5x3 35) = 3) by (vm_compute; reflexivity).
  assert (Hh : height (rain_5x3 35) = 5) by (vm_compute; reflexivity).
  pose proof (trail_gradient (R := lcg) (rain_5x3 35) 0
                (simulate_sized 42 term_5x3 35)) as H.
  cbn zeta in H. rewrite Hc, Hw, Hh in H.
  cbn [headRow speed trailLength tickCounter] in H.
  destruct H as (Hhead & Htail); [lia..|].
  destruct Hhead as (Hten & _); [lia|].
  split; [exact Hten|].
  split; [apply (Htail 1); lia|].
  split; [apply (Htail 2); lia|apply (Htail 3); lia].
Defined.

Lemma column_step_is_local_witness :
  screen_at (update_column 0 (rain_5x3 120)) 2 1 = screen_at (rain_5x3 120) 2 1 /\
  brightness_at (update_column 0 (rain_5x3 120)) 2 1
  = brightness_at (rain_5x3 120) 2 1 /\
  column (update_column 0 (rain_5x3 120)) 1 = column (rain_5x3 120) 1.
Proof. apply (column_step_is_local (R := lcg) 0 1 (rain_5x3 120) 2); lia. Defined.

(** Column 0 of [rain_5x3] again: 2 * 15 ticks bring the head to row 0. *)
Lemma drop_enters_screen_witness :
  column (Nat.iter 30 update (rain_5x3 0)) 0
  = {| headRow := 0; speed := 2; trailLength := 8; tickCounter := 0 |} /\
  brightness_at (Nat.iter 30 update (rain_5x3 0)) 0 0 = 10.
Proof.
  assert (Hc : column (rain_5x3 0) 0
               = {| headRow := -15; speed := 2; trailLength := 8;
                    tickCounter := 0 |}) by (vm_compute; reflexivity).
  assert (Hw : width (rain_5x3 0) = 3) by (vm_compute; reflexivity).
  assert (Hh : height (rain_5x3 0) = 5) by (vm_compute; reflexivity).
  pose proof (drop_enters_screen (R := lcg) (rain_5x3 0) 0
                (simulate_sized 42 term_5x3 0)) as H.
  cbn zeta in H. rewrite Hc, Hw, Hh in H.
  cbn [headRow speed trailLength tickCounter] in H.
  destruct H as (_ & Hcol & Hlit); [lia..|].
  split; [exact Hcol|]. apply Hlit. lia.
Defined.

(** And its reset: 2 * (5 + 8 + 1 + 15) = 58 ticks after the start. *)
Lemma column_respawns_witness :
  exists spawn sp len,
    0 <= spawn <= 50 /\ 1 <= sp <= 4 /\ 7 <= len <= 10 /\
    column (Nat.iter 58 update (rain_5x3 0)) 0
    = {| headRow := - spawn - 8; speed := sp; trailLength := len;
         tickCounter := 0 |}.
Proof.
  assert (Hc : column (rain_5x3 0) 0
               = {| headRow := -15; speed := 2; trailLength := 8;
                    tickCounter := 0 |}) by (vm_compute; reflexivity).
  assert (Hw : width (rain_5x3 0) = 3) by (vm_compute; reflexivity).
  assert (Hh : height (rain_5x3 0) = 5) by (vm_compute; reflexivity).
  pose proof (column_respawns (R := lcg) (rain_5x3 0) 0
                (simulate_sized 42 term_5x3 0)) as H.
  cbn zeta in H. rewrite Hc, Hw, Hh in H.
  cbn [headRow speed trailLength tickCounter] in H.
  destruct H as (_ & Hreset & _); [lia..|]. exact Hreset.
Defined.

(** Two frames, then a key. *)
Lemma session_stream_witness :
  let frame k :=
    render (simulate (R := lcg) 42 {| ws_row := 2; ws_col := 3 |} (S k)) in
  stdout (main (R := lcg) not_a_terminal)
  = [System "clear"; Insert hideCursor; Insert start_banner]
    ++ concat (map (fun k => [Insert (frame k); Flush]) [0%nat; 1%nat])
    ++ [Insert showCursor; Insert resetColor; System "clear";
        Insert end_banner].
Proof.
  exact (proj1 (session_stream (R := lcg) not_a_terminal eq_refl)).
Defined.

Lemma kbhit_leaves_stdin_witness :
  kbhit linux_flags key_typed = Returns (true, key_typed) /\
  c_lflag (attributes (snd (kbhit_prepare linux_flags key_typed))) = 35377 /\
  status_flags (snd (kbhit_prepare linux_flags key_typed)) = 2050.
Proof.
  destruct (kbhit_leaves_stdin linux_flags key_typed) as (Hret & _).
  - intros H. discriminate H.
  - split; [exact Hret|]. split; reflexivity.
Defined.

(** The linear congruential engine and the same engine with shifted
    states, both seeded with 42. *)
Lemma engines_paint_same_frames_witness :
  render (simulate (R := lcg) 42 term_5x3 120)
  = render (simulate (R := lcg_shifted) 42 term_5x3 120).
Proof.
  refine (proj2 (proj2 (proj2
            (engines_paint_same_frames lcg lcg_shifted
               (fun g1 g2 => g2 = g1 + 1) _ 42 42 term_5x3 120 _)))).
  - intros a b g1 g2 ->. cbn. unfold lcg_shifted_uniform.
    replace (g1 + 1 - 1) with g1 by lia. split; reflexivity.
  - reflexivity.
Defined.

(** After 120 ticks column 0 has brightness 3 in row 3 and 4 in row 4. *)
Lemma fade_pass_witness :
  let m := simulate (R := lcg) 42 term_5x3 120 in
  cell (fade m) 3 0 = (space, 0) /\
  cell (fade m) 4 0 = (screen_at m 4 0, 1).
Proof.
  intros m.
  assert (Hw : width m = 3) by (vm_compute; reflexivity).
  assert (Hh : height m = 5) by (vm_compute; reflexivity).
  assert (H3 : brightness_at m 3 0 = 3) by (vm_compute; reflexivity).
  assert (H4 : brightness_at m 4 0 = 4) by (vm_compute; reflexivity).
  pose proof (fade_pass (R := lcg) 42 term_5x3 120 3 0) as F3.
  pose proof (fade_pass (R := lcg) 42 term_5x3 120 4 0) as F4.
  cbn zeta in F3, F4. fold m in F3, F4.
  rewrite Hw, Hh in F3, F4. rewrite H3 in F3. rewrite H4 in F4.
  split; [apply F3; lia|apply F4; lia].
Defined.
